(** * Voxel-wise combined p-value for the sum of two Cox coefficients

    A shallow embedding of [calculate_p_for_combined_coefficient.py]:

    - numpy [float64] values are Rocq's primitive binary64 floats, whose
      operations are specified by the IEEE 754 model [SpecFloat];
    - an [ndarray] is a shape together with its elements in C order;
    - Python objects live in a store ([heap]) addressed by references, so
      that the in-place assignment [var_sum[var_sum <= 0] = np.nan] is a
      store update and aliasing between arguments is expressible;
    - the NIfTI files read and written by [main] form the second half of the
      [world];
    - [scipy.stats.t.cdf] is not part of the repository: it is a parameter
      [t_cdf] of the development, applied element by element. *)

From Stdlib Require Import ZArith Lia Bool Floats.
From stdpp Require Import gmap list strings.

(** ** Scalars *)

(** Largest finite binary64 value, [np.finfo(np.float64).max]. *)
Definition max_float : float := 0x1.fffffffffffffp+1023%float.

(** [np.nan_to_num(x, nan=nan_val)] at one element: NaN becomes [nan_val],
    and (the [posinf]/[neginf] defaults) the infinities become the largest
    finite values of either sign. *)
Definition nan_to_num_scalar (nan_val x : float) : float :=
  if is_nan x then nan_val
  else if (x =? infinity)%float then max_float
  else if (x =? neg_infinity)%float then (- max_float)%float
  else x.

(** The IEEE 754 model of binary64: the smallest exponent of a mantissa, the
    constants of the program, and the values that are strictly positive
    (finite or [+infinity]). *)
Definition emin64 : Z := (-1074)%Z.

Definition SF_half : spec_float := S754_finite false 4503599627370496 (-53).
Definition SF_one : spec_float := S754_finite false 4503599627370496 (-52).
Definition SF_two : spec_float := S754_finite false 4503599627370496 (-51).

Definition SFpositive (x : spec_float) : Prop :=
  match x with
  | S754_finite false _ _ | S754_infinity false => True
  | _ => False
  end.

(** ** Arrays, the object store and the file system *)

(** An array as [nib.load(...).get_fdata()] returns it: [float64] elements,
    one or more axes. *)
Record ndarray := NDArray { shape : list nat; data : list float }.

Definition loc := positive.

Record nifti_image := NiftiImage {
  img_data : ndarray;
  img_affine : list float;
  img_header : string
}.

Record world := World {
  heap : gmap loc ndarray;
  files : gmap string nifti_image
}.

(** ** Exceptions and the state-and-exception monad *)

Inductive exn :=
  | ValueError (msg : string)
  | FileNotFoundError (path : string)
  (** Operands of different shapes: numpy would broadcast them or raise.
      [main] rejects such operands before the core runs; the model stops. *)
  | BroadcastNotModelled
  (** A reference that names no object.  Python has no such references;
      the case only keeps the store operations total. *)
  | NoSuchObject (l : loc).

Inductive result (A : Type) :=
  | Ok (a : A)
  | Raise (e : exn).
Arguments Ok {A} a.
Arguments Raise {A} e.

(** A computation maps the world to an outcome and the world it leaves
    behind; an exception keeps the effects that happened before it. *)
Definition M (A : Type) : Type := world -> result A * world.

#[export] Instance M_ret : MRet M := fun A a w => (Ok a, w).
#[export] Instance M_bind : MBind M := fun A B k m w =>
  match m w with
  | (Ok a, w') => k a w'
  | (Raise e, w') => (Raise e, w')
  end.

Definition raise {A} (e : exn) : M A := fun w => (Raise e, w).

Definition get_array (l : loc) : M ndarray := fun w =>
  match heap w !! l with
  | Some a => (Ok a, w)
  | None => (Raise (NoSuchObject l), w)
  end.

(** The reference the next allocation returns (one that is not in use), and
    the world after allocating an array there. *)
Definition next (w : world) : loc := fresh (dom (heap w)).
Definition alloc (w : world) (a : ndarray) : world :=
  World (<[next w := a]> (heap w)) (files w).

(** A new array object. *)
Definition new_array (a : ndarray) : M loc := fun w => (Ok (next w), alloc w a).

(** In-place update of the object at [l]. *)
Definition set_array (l : loc) (a : ndarray) : M unit := fun w =>
  (Ok tt, World (<[l := a]> (heap w)) (files w)).

(** ** The numpy operations the program uses *)

(** A unary ufunc, or a binary one with a Python scalar operand: a new
    array of the same shape. *)
Definition elementwise1 (f : float -> float) (a : loc) : M loc :=
  x ← get_array a;
  new_array (NDArray (shape x) (f <$> data x)).

(** A binary ufunc on two arrays of one shape. *)
Definition elementwise2 (f : float -> float -> float) (a b : loc) : M loc :=
  x ← get_array a;
  y ← get_array b;
  if decide (shape x = shape y)
  then new_array (NDArray (shape x) (zip_with f (data x) (data y)))
  else raise BroadcastNotModelled.

Definition np_add : loc -> loc -> M loc := elementwise2 PrimFloat.add.
Definition np_divide : loc -> loc -> M loc := elementwise2 PrimFloat.div.
Definition np_sqrt : loc -> M loc := elementwise1 PrimFloat.sqrt.
Definition np_abs : loc -> M loc := elementwise1 PrimFloat.abs.

(** [k * a] and [k - a] for a Python float [k]. *)
Definition scalar_mul (k : float) : loc -> M loc :=
  elementwise1 (fun x => (k * x)%float).
Definition scalar_sub (k : float) : loc -> M loc :=
  elementwise1 (fun x => (k - x)%float).

(** [a <= k]: the boolean mask, a temporary that nothing else refers to. *)
Definition less_equal_scalar (a : loc) (k : float) : M (list bool) :=
  x ← get_array a;
  mret ((fun v => (v <=? k)%float) <$> data x).

(** [a[mask] = v]: assignment through a boolean mask, in place. *)
Definition setitem_mask (a : loc) (mask : list bool) (v : float) : M unit :=
  x ← get_array a;
  set_array a (NDArray (shape x)
                 (zip_with (fun old (m : bool) => if m then v else old) (data x) mask)).

(** [np.nan_to_num(a, nan=nan_val)], with the default [copy=True]. *)
Definition np_nan_to_num (a : loc) (nan_val : float) : M loc :=
  elementwise1 (nan_to_num_scalar nan_val) a.

(** ** The program *)

(** [args] as [argparse] builds it. *)
Record Namespace := {
  beta4 : string; beta6 : string; var4 : string; var6 : string;
  cov46 : string; n_obs : Z; n_predictors : Z; output : string
}.

(** The local variables of [compute_combined_pvalue] when it returns. *)
Record locals := Locals {
  var_sum : loc; se_sum : loc; beta_sum : loc; t_stat : loc;
  p_value_with_nans : loc; p_value_no_nans : loc
}.

(** The five input scalars at one voxel. *)
Record voxel := Voxel {
  vx_beta1 : float; vx_beta2 : float;
  vx_var1 : float; vx_var2 : float; vx_cov12 : float
}.

Definition shape_mismatch_message : string :=
  "Input NIfTI files must have identical dimensions.".

Section Program.

(** [scipy.stats.t.cdf(x, df)] at one element. *)
Variable t_cdf : float -> Z -> float.

Definition t_cdf_array (a : loc) (df : Z) : M loc :=
  elementwise1 (fun x => t_cdf x df) a.

Definition compute_combined_pvalue_body
    (beta1 beta2 var1 var2 cov12 : loc) (df : Z) : M locals :=
  (* var_sum = var1 + var2 + 2.0 * cov12 *)
  s12 ← np_add var1 var2;
  c2 ← scalar_mul 2 cov12;
  var_sum ← np_add s12 c2;
  (* var_sum[var_sum <= 0] = np.nan *)
  mask ← less_equal_scalar var_sum 0;
  _ ← setitem_mask var_sum mask nan;
  (* se_sum = np.sqrt(var_sum) *)
  se_sum ← np_sqrt var_sum;
  (* beta_sum = beta1 + beta2 *)
  beta_sum ← np_add beta1 beta2;
  (* t_stat = beta_sum / se_sum *)
  t_stat ← np_divide beta_sum se_sum;
  (* p_value_with_nans = 2.0 * (1.0 - t.cdf(np.abs(t_stat), df)) *)
  a ← np_abs t_stat;
  c ← t_cdf_array a df;
  u ← scalar_sub 1 c;
  p_value_with_nans ← scalar_mul 2 u;
  (* p_value_no_nans = np.nan_to_num(p_value_with_nans, nan=0) *)
  p_value_no_nans ← np_nan_to_num p_value_with_nans 0;
  mret (Locals var_sum se_sum beta_sum t_stat p_value_with_nans p_value_no_nans).

Definition compute_combined_pvalue
    (beta1 beta2 var1 var2 cov12 : loc) (df : Z) : M loc :=
  l ← compute_combined_pvalue_body beta1 beta2 var1 var2 cov12 df;
  mret (p_value_no_nans l).

(** [nib.load(path)]. *)
Definition nib_load (path : string) : M nifti_image := fun w =>
  match files w !! path with
  | Some img => (Ok img, w)
  | None => (Raise (FileNotFoundError path), w)
  end.

(** [nib.save(img, path)]. *)
Definition nib_save (img : nifti_image) (path : string) : M unit := fun w =>
  (Ok tt, World (heap w) (<[path := img]> (files w))).

Definition load_nifti (path : string) : M loc :=
  img ← nib_load path;
  new_array (img_data img).

Definition save_nifti (data : loc) (output_path reference_path : string) : M unit :=
  ref_img ← nib_load reference_path;
  arr ← get_array data;
  nib_save (NiftiImage arr (img_affine ref_img) (img_header ref_img)) output_path.

(** [a.shape == b.shape == c.shape == d.shape == e.shape]: Python chains
    the four comparisons of neighbours with [and]. *)
Definition shapes_chain_equal (a b c d e : ndarray) : bool :=
  bool_decide (shape a = shape b) && bool_decide (shape b = shape c)
  && bool_decide (shape c = shape d) && bool_decide (shape d = shape e).

Definition main (args : Namespace) : M unit :=
  let df := (n_obs args - n_predictors args - 1)%Z in
  beta_4 ← load_nifti (beta4 args);
  beta_6 ← load_nifti (beta6 args);
  var_4 ← load_nifti (var4 args);
  var_6 ← load_nifti (var6 args);
  cov_46 ← load_nifti (cov46 args);
  a ← get_array beta_4;
  b ← get_array beta_6;
  c ← get_array var_4;
  d ← get_array var_6;
  e ← get_array cov_46;
  if negb (shapes_chain_equal a b c d e)
  then raise (ValueError shape_mismatch_message)
  else
    p_map ← compute_combined_pvalue beta_4 beta_6 var_4 var_6 cov_46 df;
    save_nifti p_map (output args) (beta4 args).

(** ** The program at one voxel

    The value each local array of [compute_combined_pvalue] holds at a voxel,
    as a function of the five input scalars there. *)

Definition guard_nonpositive (v : float) : float :=
  if (v <=? 0)%float then nan else v.

Definition voxel_var_sum (v : voxel) : float :=
  guard_nonpositive (vx_var1 v + vx_var2 v + 2 * vx_cov12 v)%float.

Definition voxel_se_sum (v : voxel) : float := sqrt (voxel_var_sum v).

Definition voxel_beta_sum (v : voxel) : float := (vx_beta1 v + vx_beta2 v)%float.

Definition voxel_t_stat (v : voxel) : float :=
  (voxel_beta_sum v / voxel_se_sum v)%float.

Definition voxel_p_with_nans (df : Z) (v : voxel) : float :=
  (2 * (1 - t_cdf (abs (voxel_t_stat v)) df))%float.

Definition voxel_p (df : Z) (v : voxel) : float :=
  nan_to_num_scalar 0 (voxel_p_with_nans df v).

End Program.

(** The five arrays a call receives, and the scalars they hold at a voxel. *)
Record inputs := Inputs {
  in_beta1 : ndarray; in_beta2 : ndarray;
  in_var1 : ndarray; in_var2 : ndarray; in_cov12 : ndarray
}.

Definition same_shape (x : inputs) : Prop :=
  shape (in_beta2 x) = shape (in_beta1 x) /\
  shape (in_var1 x) = shape (in_beta1 x) /\
  shape (in_var2 x) = shape (in_beta1 x) /\
  shape (in_cov12 x) = shape (in_beta1 x).

(** The references [beta1 .. cov12] name the arrays of [x] in the world [w];
    nothing prevents two of them from naming the same object. *)
Definition bound (w : world) (beta1 beta2 var1 var2 cov12 : loc) (x : inputs) : Prop :=
  heap w !! beta1 = Some (in_beta1 x) /\
  heap w !! beta2 = Some (in_beta2 x) /\
  heap w !! var1 = Some (in_var1 x) /\
  heap w !! var2 = Some (in_var2 x) /\
  heap w !! cov12 = Some (in_cov12 x).

Definition voxel_at (x : inputs) (i : nat) : option voxel :=
  b1 ← data (in_beta1 x) !! i;
  b2 ← data (in_beta2 x) !! i;
  v1 ← data (in_var1 x) !! i;
  v2 ← data (in_var2 x) !! i;
  c ← data (in_cov12 x) !! i;
  Some (Voxel b1 b2 v1 v2 c).

(** The element of the array at [l], if any. *)
Definition element (w : world) (l : loc) (i : nat) : option float :=
  a ← heap w !! l; data a !! i.

(** [var1 + var2 + 2.0 * cov12] at a voxel, as the program forms it, before
    the guard. *)
Definition raw_var_sum (v : voxel) : float :=
  (vx_var1 v + vx_var2 v + 2 * vx_cov12 v)%float.

(** Unary minus on an array, [-a], and its effect on the two coefficients
    of a voxel. *)
Definition negative (a : ndarray) : ndarray :=
  NDArray (shape a) (PrimFloat.opp <$> data a).

Definition negate_betas (v : voxel) : voxel :=
  Voxel (- vx_beta1 v) (- vx_beta2 v) (vx_var1 v) (vx_var2 v) (vx_cov12 v).

(** The p-value for the sum of two independent coefficients, following the
    specification's words: the variance of the sum is [var_a + var_b], and
    the remaining steps (guard, standard error, t statistic, two-sided
    transform, NaN cleaning) are those of the general case. *)
Definition independent_sum_pvalue (t_cdf : float -> Z -> float) (df : Z) (v : voxel)
    : float :=
  let var_sum := guard_nonpositive (vx_var1 v + vx_var2 v)%float in
  let t := ((vx_beta1 v + vx_beta2 v) / sqrt var_sum)%float in
  nan_to_num_scalar 0 (2 * (1 - t_cdf (abs t) df))%float.

(** The five arrays as a list, and what it means for some two of them to
    differ in shape. *)
Definition arrays (x : inputs) : list ndarray :=
  [in_beta1 x; in_beta2 x; in_var1 x; in_var2 x; in_cov12 x].

Definition some_two_differ (x : inputs) : Prop :=
  exists a b, a ∈ arrays x /\ b ∈ arrays x /\ shape a <> shape b.

Definition all_agree (x : inputs) : Prop :=
  forall a b, a ∈ arrays x -> b ∈ arrays x -> shape a = shape b.

(** The inputs agree at index [i] in two calls. *)
Definition agree_at (x x' : inputs) (i : nat) : Prop :=
  data (in_beta1 x) !! i = data (in_beta1 x') !! i /\
  data (in_beta2 x) !! i = data (in_beta2 x') !! i /\
  data (in_var1 x) !! i = data (in_var1 x') !! i /\
  data (in_var2 x) !! i = data (in_var2 x') !! i /\
  data (in_cov12 x) !! i = data (in_cov12 x') !! i.

(** The world right after [main] has loaded its five inputs. *)
Definition loaded (w : world) (x : inputs) : world :=
  alloc (alloc (alloc (alloc (alloc w (in_beta1 x)) (in_beta2 x)) (in_var1 x))
           (in_var2 x)) (in_cov12 x).

(** ** The local arrays as functions of the input arrays

    The contents of each local array of [compute_combined_pvalue], written
    with the list operations the numpy calls stand for. *)

Definition array_var_sum (x : inputs) : list float :=
  guard_nonpositive <$>
    zip_with PrimFloat.add
      (zip_with PrimFloat.add (data (in_var1 x)) (data (in_var2 x)))
      ((fun v => 2 * v)%float <$> data (in_cov12 x)).

Definition array_se_sum (x : inputs) : list float :=
  PrimFloat.sqrt <$> array_var_sum x.

Definition array_beta_sum (x : inputs) : list float :=
  zip_with PrimFloat.add (data (in_beta1 x)) (data (in_beta2 x)).

Definition array_t_stat (x : inputs) : list float :=
  zip_with PrimFloat.div (array_beta_sum x) (array_se_sum x).

Definition array_p_with_nans (t_cdf : float -> Z -> float) (df : Z) (x : inputs)
    : list float :=
  (fun v => 2 * v)%float <$> ((fun v => 1 - v)%float <$>
    ((fun v => t_cdf v df) <$> (PrimFloat.abs <$> array_t_stat x))).

Definition array_p (t_cdf : float -> Z -> float) (df : Z) (x : inputs) : list float :=
  nan_to_num_scalar 0 <$> array_p_with_nans t_cdf df x.

(** ** A concrete [t_cdf] for running the model

    The contract of [scipy.stats.t.cdf] that the claims rely on is stated as
    hypotheses.  This stand-in meets all of them and lets examples run: NaN
    for a NaN argument or non-positive [df] (scipy's [badvalue]), and
    otherwise the distribution function of a point mass at zero, the limit
    of Student's t as its scale shrinks. *)
Definition t_cdf_ref (x : float) (df : Z) : float :=
  if (df <=? 0)%Z then nan
  else if is_nan x then nan
  else if (x <? 0)%float then 0%float
  else if (x =? 0)%float then 0.5%float
  else 1%float.

(** The exact distribution function of Student's t with two degrees of
    freedom, [1/2 + x / (2 sqrt (2 + x^2))], evaluated in binary64: a
    second stand-in, for examples in the interior of the range. *)
Definition t_cdf_two (x : float) (df : Z) : float :=
  if is_nan x then nan
  else (0.5 + x / (2 * sqrt (2 + x * x)))%float.

(** ** Example inputs *)

(** The arrays of [x] at the references 1 to 5, and no files. *)
Definition world_of (x : inputs) : world :=
  World (list_to_map [(1%positive, in_beta1 x); (2%positive, in_beta2 x);
                      (3%positive, in_var1 x); (4%positive, in_var2 x);
                      (5%positive, in_cov12 x)]) ∅.

(** Three voxels: a regular one, one with a negative combined variance, and
    one whose two coefficients cancel. *)
Definition example_inputs : inputs :=
  Inputs (NDArray [3] [0.5; 1; -1]%float) (NDArray [3] [0.25; 1; 1]%float)
         (NDArray [3] [0.25; -1; 1]%float) (NDArray [3] [0.5; 0; 1]%float)
         (NDArray [3] [0.125; 0; 0]%float).

Definition example_world : world := world_of example_inputs.

(** The same coefficients and variances with a covariance map that is zero
    everywhere (of either sign). *)
Definition independent_inputs : inputs :=
  Inputs (in_beta1 example_inputs) (in_beta2 example_inputs)
         (in_var1 example_inputs) (in_var2 example_inputs)
         (NDArray [3] [0; 0; -0]%float).

(** [example_world] with the negated coefficient maps at references 6 and 7. *)
Definition negated_world : world :=
  World (<[6%positive := negative (in_beta1 example_inputs)]>
           (<[7%positive := negative (in_beta2 example_inputs)]>
              (heap example_world))) ∅.

(** Inputs that agree with [example_inputs] at voxel 0 and differ from them
    at every other voxel. *)
Definition perturbed_inputs : inputs :=
  Inputs (NDArray [3] [0.5; 2; 3]%float) (NDArray [3] [0.25; -2; 0.5]%float)
         (NDArray [3] [0.25; 4; 1]%float) (NDArray [3] [0.5; 1; 0]%float)
         (NDArray [3] [0.125; 1; -1]%float).

(** The same array passed as both variance maps. *)
Definition aliased_inputs : inputs :=
  Inputs (in_beta1 example_inputs) (in_beta2 example_inputs)
         (in_var1 example_inputs) (in_var1 example_inputs)
         (in_cov12 example_inputs).

(** One voxel, every input finite, where both sums overflow. *)
Definition overflow_inputs : inputs :=
  Inputs (NDArray [1] [max_float]) (NDArray [1] [max_float])
         (NDArray [1] [max_float]) (NDArray [1] [max_float])
         (NDArray [1] [0%float]).

Definition overflow_voxel : voxel := Voxel max_float max_float max_float max_float 0.

Definition overflow_world : world := world_of overflow_inputs.

(** Five files on disk, the last of a different shape in the second
    variant, and the command line naming them. *)
Definition mismatched_cov : ndarray := NDArray [2; 2] [0; 0; 0; 0]%float.

Definition image_of (a : ndarray) : nifti_image := NiftiImage a [] "n+1".

Definition example_files (cov : ndarray) : world :=
  World ∅ (list_to_map [("beta4.nii", image_of (in_beta1 example_inputs));
                        ("beta6.nii", image_of (in_beta2 example_inputs));
                        ("var4.nii", image_of (in_var1 example_inputs));
                        ("var6.nii", image_of (in_var2 example_inputs));
                        ("cov46.nii", image_of cov)]).

Definition example_args : Namespace :=
  {| beta4 := "beta4.nii"; beta6 := "beta6.nii"; var4 := "var4.nii";
     var6 := "var6.nii"; cov46 := "cov46.nii"; n_obs := 58; n_predictors := 7;
     output := "p.nii" |}.

(** ** Further notions used to describe the program's behaviour *)



(** The two coefficients of a model exchanged, each with its variance. *)
Definition exchange (x : inputs) : inputs :=
  Inputs (in_beta2 x) (in_beta1 x) (in_var2 x) (in_var1 x) (in_cov12 x).

Definition exchange_voxel (v : voxel) : voxel :=
  Voxel (vx_beta2 v) (vx_beta1 v) (vx_var2 v) (vx_var1 v) (vx_cov12 v).

(** Some input scalar of the voxel is NaN. *)
Definition has_nan (v : voxel) : Prop :=
  is_nan (vx_beta1 v) = true \/ is_nan (vx_beta2 v) = true \/
  is_nan (vx_var1 v) = true \/ is_nan (vx_var2 v) = true \/
  is_nan (vx_cov12 v) = true.

(** Every input array holds [n] elements. *)
Definition all_of_length (x : inputs) (n : nat) : Prop :=
  Forall (fun a => length (data a) = n) (arrays x).

(** A [t_cdf] that breaks every rule: it returns infinities and NaN. *)
Definition t_cdf_wild (x : float) (df : Z) : float :=
  if (x <? 1)%float then neg_infinity
  else if (x <? 2)%float then infinity else nan.

(** One of the coefficient maps holds a NaN at voxel 0, the covariance map
    at voxel 1, and the combined variance at voxel 2 is [+infinity]. *)
Definition irregular_inputs : inputs :=
  Inputs (NDArray [3] [nan; 1; 3]%float) (NDArray [3] [0.25; 1; 1]%float)
         (NDArray [3] [0.25; 1; infinity]%float) (NDArray [3] [0.5; 1; 1]%float)
         (NDArray [3] [0.125; nan; 0]%float).


(** * Facts about binary64 arithmetic

    Proved on the IEEE 754 model [SpecFloat] at precision 53 and maximal
    exponent 1024, to which the primitive operations are tied by the
    standard library's specification of primitive floats. *)

Module Float64.
Local Open Scope Z_scope.

(** *** Bit lengths and shifts *)

Lemma digits2_pos_lower (m : positive) :
  2 ^ (Z.pos (digits2_pos m) - 1) <= Z.pos m.
Proof.
  induction m as [m IH|m IH|]; simpl digits2_pos.
  - rewrite Pos2Z.inj_succ.
    replace (Z.succ (Z.pos (digits2_pos m)) - 1) with (Z.succ (Z.pos (digits2_pos m) - 1)) by lia.
    rewrite Z.pow_succ_r by lia. lia.
  - rewrite Pos2Z.inj_succ.
    replace (Z.succ (Z.pos (digits2_pos m)) - 1) with (Z.succ (Z.pos (digits2_pos m) - 1)) by lia.
    rewrite Z.pow_succ_r by lia. lia.
  - simpl. lia.
Qed.

Lemma digits2_pos_upper (m : positive) :
  Z.pos m < 2 ^ Z.pos (digits2_pos m).
Proof.
  induction m as [m IH|m IH|]; simpl digits2_pos.
  - rewrite Pos2Z.inj_succ, Z.pow_succ_r by lia. lia.
  - rewrite Pos2Z.inj_succ, Z.pow_succ_r by lia. lia.
  - simpl. lia.
Qed.

Lemma iter_pos_nat {A} (f : A -> A) (n : positive) (x : A) :
  SpecFloat.iter_pos f n x = Nat.iter (Pos.to_nat n) f x.
Proof.
  revert x. induction n as [n IH|n IH|]; intros x; simpl SpecFloat.iter_pos.
  - rewrite !IH, Pos2Nat.inj_xI. 
    replace (S (2 * Pos.to_nat n))%nat with (Pos.to_nat n + (Pos.to_nat n + 1))%nat by lia.
    rewrite !Nat.iter_add. reflexivity.
  - rewrite !IH, Pos2Nat.inj_xO.
    replace (2 * Pos.to_nat n)%nat with (Pos.to_nat n + Pos.to_nat n)%nat by lia.
    rewrite Nat.iter_add. reflexivity.
  - reflexivity.
Qed.

Lemma shr_1_m (mrs : shr_record) :
  0 <= shr_m mrs -> shr_m (shr_1 mrs) = Z.div2 (shr_m mrs).
Proof.
  destruct mrs as [m r s]. simpl. intros Hm.
  destruct m as [|[p|p|]|p]; try reflexivity; lia.
Qed.

Lemma shr_iter_m (n : nat) (mrs : shr_record) :
  0 <= shr_m mrs -> shr_m (Nat.iter n shr_1 mrs) = shr_m mrs / 2 ^ Z.of_nat n.
Proof.
  intros Hm. induction n as [|n IH].
  - simpl. now rewrite Z.div_1_r.
  - rewrite Nat2Z.inj_succ, Z.pow_succ_r by lia. simpl Nat.iter.
    rewrite shr_1_m.
    + rewrite IH, Z.div2_div, Z.div_div by lia. f_equal. lia.
    + rewrite IH. apply Z.div_pos; lia.
Qed.

Lemma shr_m_of_loc (m : Z) (l : location) : shr_m (shr_record_of_loc m l) = m.
Proof. destruct l as [|[]]; reflexivity. Qed.

Lemma round_nearest_even_pos (m : Z) (l : location) :
  0 < m -> 0 < round_nearest_even m l.
Proof.
  intros Hm. destruct l as [|[]]; simpl; try lia.
  destruct (Z.even m); lia.
Qed.

Lemma fexp64 (x : Z) : fexp prec emax x = Z.max (x - 53) emin64.
Proof. reflexivity. Qed.

(** Shifting a positive mantissa down to its canonical exponent leaves it
    positive, whenever the exponent is not below the smallest one. *)
Lemma shr_fexp_pos (p : positive) (e : Z) (l : location) :
  emin64 <= e ->
  0 < shr_m (fst (shr_fexp prec emax (Z.pos p) e l)) /\
  emin64 <= snd (shr_fexp prec emax (Z.pos p) e l).
Proof.
  intros He. unfold shr_fexp, shr. rewrite fexp64. simpl Zdigits2.
  pose proof (digits2_pos_lower p) as Hlo.
  set (d := Z.pos (digits2_pos p)) in *.
  destruct (Z.max (d + e - 53) emin64 - e) as [|n|n] eqn:Hn; simpl fst; simpl snd.
  - rewrite shr_m_of_loc. lia.
  - rewrite iter_pos_nat, shr_iter_m by (rewrite shr_m_of_loc; lia).
    rewrite shr_m_of_loc, positive_nat_Z. split; [|lia].
    assert (Hle : 2 ^ Z.pos n <= Z.pos p).
    { transitivity (2 ^ (d - 1)); [|exact Hlo].
      apply Z.pow_le_mono_r; lia. }
    assert (0 < 2 ^ Z.pos n) by (apply Z.pow_pos_nonneg; lia).
    apply Z.div_str_pos. lia.
  - rewrite shr_m_of_loc. lia.
Qed.

(** Rounding a positive mantissa at a representable exponent never
    collapses to zero and never produces a NaN. *)
Lemma binary_round_aux_pos (p : positive) (e : Z) (l : location) :
  emin64 <= e -> SFpositive (binary_round_aux prec emax false (Z.pos p) e l).
Proof.
  intros He. unfold binary_round_aux.
  destruct (shr_fexp_pos p e l He) as [Hm1 He1].
  destruct (shr_fexp prec emax (Z.pos p) e l) as [mrs1 e1]. simpl in Hm1, He1.
  pose proof (round_nearest_even_pos _ (loc_of_shr_record mrs1) Hm1) as Hr.
  destruct (round_nearest_even (shr_m mrs1) (loc_of_shr_record mrs1)) as [|q|q]; try lia.
  destruct (shr_fexp_pos q e1 loc_Exact He1) as [Hm2 _].
  destruct (shr_fexp prec emax (Z.pos q) e1 loc_Exact) as [mrs2 e2]. simpl in Hm2.
  destruct (shr_m mrs2) as [|r|r]; try lia.
  destruct (e2 <=? emax - prec); exact I.
Qed.

Lemma valid_finite_emin (s : bool) (m : positive) (e : Z) :
  valid_binary (S754_finite s m e) = true -> emin64 <= e.
Proof.
  unfold SpecFloat.valid_binary, bounded, canonical_mantissa. rewrite fexp64.
  intros H. apply andb_true_iff in H as [H _]. apply Z.eqb_eq in H. lia.
Qed.

Lemma SFsqrt_pos (m : positive) (e : Z) :
  emin64 <= e -> SFpositive (SF64sqrt (S754_finite false m e)).
Proof.
  intros He. unfold SF64sqrt, SFsqrt, SFsqrt_core_binary. rewrite fexp64.
  set (e' := Z.min _ _).
  assert (He' : emin64 <= e' /\ 2 * e' <= e).
  { unfold e'. rewrite !Z.div2_div. unfold emin64 in *.
    pose proof (Z.mul_div_le e 2 ltac:(lia)).
    assert (-537 <= e / 2) by (apply Z.div_le_lower_bound; lia).
    lia. }
  set (m' := match e - 2 * e' with Z.pos _ => _ | _ => _ end).
  assert (Hm' : 1 <= m').
  { unfold m'. destruct (e - 2 * e') as [|s|s] eqn:Hs; try lia.
    rewrite Z.shiftl_mul_pow2 by lia.
    assert (0 < 2 ^ Z.pos s) by (apply Z.pow_pos_nonneg; lia). nia. }
  pose proof (Z.sqrtrem_spec m' ltac:(lia)) as Hsq.
  destruct (Z.sqrtrem m') as [q r]. destruct Hsq as [Hq Hr].
  destruct q as [|q|q]; try lia.
  apply binary_round_aux_pos. lia.
Qed.

(** A mantissa already at its canonical exponent is a fixed point of
    rounding. *)
Lemma binary_round_aux_canonical (s : bool) (m : positive) (e : Z) :
  bounded prec emax m e = true ->
  binary_round_aux prec emax s (Z.pos m) e loc_Exact = S754_finite s m e.
Proof.
  unfold bounded, canonical_mantissa. intros H.
  apply andb_true_iff in H as [Hc Hb]. apply Z.eqb_eq in Hc.
  unfold binary_round_aux, shr_fexp. simpl Zdigits2.
  rewrite Hc, Z.sub_diag. simpl. rewrite Hc, Z.sub_diag. simpl.
  now rewrite Hb.
Qed.

Lemma digits2_pos_iter_xO (m d : positive) :
  digits2_pos (Pos.iter xO m d) = (digits2_pos m + d)%positive.
Proof.
  induction d as [|d IH] using Pos.peano_ind.
  - simpl. lia.
  - rewrite Pos.iter_succ. simpl. rewrite IH. lia.
Qed.

Lemma iter_xO_value (m d : positive) :
  Z.pos (Pos.iter xO m d) = Z.pos m * 2 ^ Z.pos d.
Proof.
  induction d as [|d IH] using Pos.peano_ind.
  - simpl. lia.
  - rewrite Pos.iter_succ, Pos2Z.inj_succ, Z.pow_succ_r by lia.
    rewrite Pos2Z.inj_xO, IH. lia.
Qed.

(** Rounding an integer of at most 53 bits is exact: the result is the
    same value, normalised to 53 bits. *)
Lemma binary_round_normal (s : bool) (k : positive) (e : Z) :
  let E := Z.pos (digits2_pos k) + e - 53 in
  Z.pos (digits2_pos k) <= 53 -> emin64 <= E <= 971 ->
  exists mz, binary_round prec emax s k e = S754_finite s mz E /\
             digits2_pos mz = 53%positive /\
             Z.pos mz = Z.pos k * 2 ^ (53 - Z.pos (digits2_pos k)).
Proof.
  intros E Hd HE. unfold binary_round, shl_align. rewrite fexp64.
  replace (Z.max (Z.pos (digits2_pos k) + e - 53) emin64) with E by (unfold E; lia).
  destruct (E - e) as [|n|n] eqn:Hn; try lia.
  - exists k. assert (Hk : Z.pos (digits2_pos k) = 53) by (unfold E in Hn; lia).
    replace E with e by lia. split; [|split].
    + apply binary_round_aux_canonical. unfold bounded, canonical_mantissa.
      rewrite fexp64. apply andb_true_iff. split; [apply Z.eqb_eq|apply Z.leb_le].
      * unfold E in *. lia.
      * change (emax - prec) with 971. unfold E in *. lia.
    + lia.
    + rewrite Hk. simpl. lia.
  - exists (Pos.iter xO k n). split; [|split].
    + apply binary_round_aux_canonical. unfold bounded, canonical_mantissa.
      rewrite fexp64, digits2_pos_iter_xO. apply andb_true_iff.
      split; [apply Z.eqb_eq|apply Z.leb_le].
      * unfold E in *. lia.
      * change (emax - prec) with 971. lia.
    + rewrite digits2_pos_iter_xO. unfold E in Hn. lia.
    + rewrite iter_xO_value. f_equal. f_equal. unfold E in Hn. lia.
Qed.

Lemma iter_shr_1_xO (k : nat) (m : positive) :
  Nat.iter k shr_1 (Build_shr_record (Z.pos (Nat.iter k xO m)) false false)
  = Build_shr_record (Z.pos m) false false.
Proof.
  induction k as [|k IH]; [reflexivity|].
  rewrite Nat.iter_succ_r. simpl. exact IH.
Qed.

Lemma pos_iter_nat {A} (f : A -> A) (x : A) (n : positive) :
  Pos.iter f x n = Nat.iter (Pos.to_nat n) f x.
Proof. apply Pos2Nat.inj_iter. Qed.

(** Rounding [m * 2^n], with [m] of exactly 53 bits, gives back [m] with
    the exponent raised by [n]. *)
Lemma binary_round_aux_shifted (s : bool) (m n : positive) (e : Z) :
  digits2_pos m = 53%positive -> emin64 <= e + Z.pos n <= 971 ->
  binary_round_aux prec emax s (Z.pos (Pos.iter xO m n)) e loc_Exact
  = S754_finite s m (e + Z.pos n).
Proof.
  intros Hd He. unfold binary_round_aux, shr_fexp. simpl Zdigits2.
  rewrite fexp64, digits2_pos_iter_xO, Hd.
  replace (Z.max (Z.pos (53 + n) + e - 53) emin64 - e) with (Z.pos n) by lia.
  unfold shr at 1. simpl shr_record_of_loc.
  rewrite iter_pos_nat, pos_iter_nat, iter_shr_1_xO.
  simpl shr_m. simpl loc_of_shr_record. simpl round_nearest_even.
  simpl Zdigits2. rewrite fexp64, Hd.
  replace (Z.max (53 + (e + Z.pos n) - 53) emin64 - (e + Z.pos n)) with 0 by lia.
  simpl. change (emax - prec) with 971.
  destruct (Z.leb_spec (e + Z.pos n) 971); [reflexivity|lia].
Qed.

(** [1 - c] for a binary64 [c] in [[0.5, 1)]: the difference is exact. *)
Lemma SFsub_one_range (m : positive) :
  digits2_pos m = 53%positive ->
  exists my ey,
    SF64sub SF_one (S754_finite false m (-53)) = S754_finite false my ey /\
    digits2_pos my = 53%positive /\ -105 <= ey <= -53 /\
    (ey = -53 -> my = 4503599627370496%positive).
Proof.
  intros Hd.
  pose proof (digits2_pos_lower m) as Hlo. pose proof (digits2_pos_upper m) as Hup.
  rewrite Hd in Hlo, Hup. change (2 ^ (53 - 1)) with 4503599627370496 in Hlo.
  change (2 ^ 53) with 9007199254740992 in Hup.
  unfold SF64sub, SFsub, SF_one. simpl Z.min. unfold shl_align. simpl fst. simpl cond_Zopp.
  destruct (9007199254740992 - Z.pos m) as [|k|k] eqn:Hk; try lia.
  simpl binary_normalize.
  pose proof (digits2_pos_lower k) as Hklo. pose proof (digits2_pos_upper k) as Hkup.
  assert (Hkd : Z.pos (digits2_pos k) <= 53).
  { destruct (Z.le_gt_cases (Z.pos (digits2_pos k)) 53) as [|Hgt]; [assumption|].
    assert (2 ^ 53 <= 2 ^ (Z.pos (digits2_pos k) - 1)) by (apply Z.pow_le_mono_r; lia).
    change (2 ^ 53) with 9007199254740992 in *. lia. }
  destruct (binary_round_normal false k (-53)) as (mz & Hr & Hdz & Hv); [lia|unfold emin64; lia|].
  exists mz, (Z.pos (digits2_pos k) + -53 - 53). split; [exact Hr|].
  split; [exact Hdz|]. split; [lia|].
  intros He. assert (Hk53 : Z.pos (digits2_pos k) = 53) by lia.
  rewrite Hk53 in Hv, Hklo. simpl in Hv. change (2 ^ (53 - 1)) with 4503599627370496 in Hklo. lia.
Qed.

Lemma SFmul_two (my : positive) (ey : Z) :
  digits2_pos my = 53%positive -> emin64 <= ey + 1 <= 971 ->
  SF64mul SF_two (S754_finite false my ey) = S754_finite false my (ey + 1).
Proof.
  intros Hd He. unfold SF64mul, SFmul, SF_two. simpl xorb.
  change (4503599627370496 * my)%positive with (Pos.iter xO my 52).
  rewrite binary_round_aux_shifted by (assumption || lia). f_equal. lia.
Qed.

(** *** Signs and NaN in rounding, division and addition *)

Lemma shr_fexp_nonneg (m e : Z) (l : location) :
  0 <= m -> 0 <= shr_m (fst (shr_fexp prec emax m e l)).
Proof.
  intros Hm. unfold shr_fexp, shr.
  destruct (fexp prec emax (Zdigits2 m + e) - e) as [|n|n]; simpl fst;
    rewrite ?shr_m_of_loc; try lia.
  rewrite iter_pos_nat, shr_iter_m by (rewrite shr_m_of_loc; lia).
  rewrite shr_m_of_loc. apply Z.div_pos; [lia|apply Z.pow_pos_nonneg; lia].
Qed.

Lemma round_nearest_even_nonneg (m : Z) (l : location) :
  0 <= m -> 0 <= round_nearest_even m l.
Proof.
  intros Hm. destruct l as [|[]]; simpl; try lia.
  destruct (Z.even m); lia.
Qed.

Lemma binary_round_aux_not_nan (s : bool) (m e : Z) (l : location) :
  0 <= m -> binary_round_aux prec emax s m e l <> S754_nan.
Proof.
  intros Hm. unfold binary_round_aux.
  pose proof (shr_fexp_nonneg m e l Hm) as H1.
  destruct (shr_fexp prec emax m e l) as [mrs1 e1]. simpl in H1.
  pose proof (round_nearest_even_nonneg _ (loc_of_shr_record mrs1) H1) as Hr.
  pose proof (shr_fexp_nonneg _ e1 loc_Exact Hr) as H2.
  destruct (shr_fexp prec emax _ e1 loc_Exact) as [mrs2 e2]. simpl in H2.
  destruct (shr_m mrs2) as [|q|q]; [discriminate| |lia].
  destruct (e2 <=? emax - prec); discriminate.
Qed.

Lemma SFabs_binary_round_aux (s : bool) (m e : Z) (l : location) :
  SFabs (binary_round_aux prec emax s m e l) = binary_round_aux prec emax false m e l.
Proof.
  unfold binary_round_aux.
  destruct (shr_fexp prec emax m e l) as [mrs1 e1].
  destruct (shr_fexp prec emax _ e1 loc_Exact) as [mrs2 e2].
  destruct (shr_m mrs2); try reflexivity.
  destruct (e2 <=? emax - prec); reflexivity.
Qed.

(** The magnitude of a quotient is the quotient of the magnitudes. *)
Lemma SFabs_div (x y : spec_float) :
  SFabs (SF64div x y) = SF64div (SFabs x) (SFabs y).
Proof.
  unfold SF64div.
  destruct x as [sx|sx| |sx mx ex], y as [sy|sy| |sy my ey]; try reflexivity.
  unfold SFabs at 2 3. unfold SFdiv.
  destruct (SFdiv_core_binary prec emax (Z.pos mx) ex (Z.pos my) ey) as [[mz ez] lz].
  apply SFabs_binary_round_aux.
Qed.

Lemma SFabs_binary_normalize_opp (z e : Z) :
  SFabs (binary_normalize prec emax (- z) e false)
  = SFabs (binary_normalize prec emax z e false).
Proof.
  destruct z as [|k|k]; simpl; try reflexivity; unfold binary_round;
    destruct (shl_align k e _) as [mz ez]; now rewrite !SFabs_binary_round_aux.
Qed.

(** Negating both summands changes at most the sign of the sum. *)
Lemma SFabs_add_opp (x y : spec_float) :
  SFabs (SF64add (SFopp x) (SFopp y)) = SFabs (SF64add x y).
Proof.
  unfold SF64add.
  destruct x as [[]|[]| |sx mx ex], y as [[]|[]| |sy my ey]; try reflexivity.
  unfold SFopp, SFadd.
  set (A := Z.pos (fst (shl_align mx ex (Z.min ex ey)))).
  set (B := Z.pos (fst (shl_align my ey (Z.min ex ey)))).
  replace (cond_Zopp (negb sx) A + cond_Zopp (negb sy) B)
    with (- (cond_Zopp sx A + cond_Zopp sy B))
    by (destruct sx, sy; unfold cond_Zopp; simpl negb; cbv iota; lia).
  apply SFabs_binary_normalize_opp.
Qed.

(** A finite quotient of finite operands is never NaN. *)
Lemma SFdiv_finite_not_nan (sx sy : bool) (mx my : positive) (ex ey : Z) :
  SF64div (S754_finite sx mx ex) (S754_finite sy my ey) <> S754_nan.
Proof.
  unfold SF64div, SFdiv, SFdiv_core_binary.
  set (e' := Z.min _ _). set (m' := match ex - ey - e' with Z.pos _ => _ | _ => _ end).
  assert (Hm' : 0 <= m').
  { unfold m'. destruct (ex - ey - e') as [|s|s]; try lia.
    apply Z.shiftl_nonneg. lia. }
  pose proof (Z.div_pos m' (Z.pos my) Hm' ltac:(lia)) as Hq.
  unfold Z.div in Hq. destruct (Z.div_eucl m' (Z.pos my)) as [q r].
  apply binary_round_aux_not_nan. exact Hq.
Qed.

(** Addition is commutative, bit for bit. *)
Lemma SFadd_comm (x y : spec_float) : SF64add x y = SF64add y x.
Proof.
  unfold SF64add.
  destruct x as [[]|[]| |sx mx ex], y as [[]|[]| |sy my ey]; try reflexivity.
  unfold SFadd. now rewrite (Z.min_comm ey ex), Z.add_comm.
Qed.

(** *** The exact value of [1 - c] *)


End Float64.

(** * Facts about the primitive operations *)

Section PrimitiveFloats.
Import Float64.
Local Open Scope float_scope.

Lemma Prim2SF_nan : Prim2SF nan = S754_nan.
Proof. reflexivity. Qed.

Lemma Prim2SF_zero : Prim2SF 0 = S754_zero false.
Proof. reflexivity. Qed.

Lemma Prim2SF_half : Prim2SF 0.5 = SF_half.
Proof. reflexivity. Qed.

Lemma Prim2SF_one : Prim2SF 1 = SF_one.
Proof. reflexivity. Qed.

Lemma Prim2SF_two : Prim2SF 2 = SF_two.
Proof. reflexivity. Qed.

Lemma Prim2SF_nan_inv (x : float) : Prim2SF x = S754_nan -> x = nan.
Proof. intros H. apply Prim2SF_inj. now rewrite H. Qed.

Lemma SFeqb_refl (x : spec_float) : x <> S754_nan -> SFeqb x x = true.
Proof.
  intros Hx. unfold SFeqb, SFcompare.
  destruct x as [s|[]| |[] m e]; try reflexivity; try congruence;
    now rewrite Z.compare_refl, Pos.compare_cont_refl.
Qed.

Lemma is_nan_true (x : float) : is_nan x = true <-> x = nan.
Proof.
  unfold is_nan. rewrite FloatAxioms.eqb_spec. split.
  - intros H. apply Prim2SF_nan_inv.
    destruct (Prim2SF x) eqn:E; try reflexivity;
      rewrite SFeqb_refl in H by discriminate; discriminate.
  - intros ->. reflexivity.
Qed.

Lemma div_nan_r (x : float) : x / nan = nan.
Proof.
  apply Prim2SF_inj. rewrite FloatAxioms.div_spec, Prim2SF_nan.
  now destruct (Prim2SF x).
Qed.

Lemma abs_div (b s : float) : abs (b / s) = abs b / abs s.
Proof.
  apply Prim2SF_inj. rewrite FloatAxioms.abs_spec, !FloatAxioms.div_spec, !FloatAxioms.abs_spec. apply SFabs_div.
Qed.

Lemma abs_add_opp (a b : float) : abs (- a + - b) = abs (a + b).
Proof.
  apply Prim2SF_inj. rewrite !FloatAxioms.abs_spec, !FloatAxioms.add_spec, !FloatAxioms.opp_spec. apply SFabs_add_opp.
Qed.

(** [abs] is the identity on NaN and on values whose sign bit is clear. *)
Lemma abs_of_positive (s : float) :
  s = nan \/ SFpositive (Prim2SF s) -> abs s = s.
Proof.
  intros [->|H]; [reflexivity|]. apply Prim2SF_inj. rewrite FloatAxioms.abs_spec.
  now destruct (Prim2SF s) as [?|[]| |[] ? ?].
Qed.

Lemma positive_ltb (s : float) : SFpositive (Prim2SF s) -> (0 <? s) = true.
Proof.
  rewrite FloatAxioms.ltb_spec, Prim2SF_zero. now destruct (Prim2SF s) as [?|[]| |[] ? ?].
Qed.

Lemma ltb_positive (s : float) : (0 <? s) = true -> SFpositive (Prim2SF s).
Proof.
  rewrite FloatAxioms.ltb_spec, Prim2SF_zero. now destruct (Prim2SF s) as [?|[]| |[] ? ?].
Qed.

Lemma positive_not_leb (s : float) : SFpositive (Prim2SF s) -> (s <=? 0) = false.
Proof.
  rewrite FloatAxioms.leb_spec, Prim2SF_zero. now destruct (Prim2SF s) as [?|[]| |[] ? ?].
Qed.

(** The guard leaves a value alone exactly when it is strictly positive or
    already NaN. *)
Lemma guard_nonpositive_cases (v : float) :
  guard_nonpositive v = nan \/
  (guard_nonpositive v = v /\ SFpositive (Prim2SF v)).
Proof.
  unfold guard_nonpositive. destruct (v <=? 0) eqn:H; [now left|].
  rewrite FloatAxioms.leb_spec, Prim2SF_zero in H.
  destruct (Prim2SF v) as [?|[]| |[] ? ?] eqn:E; try discriminate;
    try (right; split; [reflexivity|exact I]).
  left. now apply Prim2SF_nan_inv.
Qed.

Lemma guard_nonpositive_positive (v : float) :
  (0 <? v) = true -> guard_nonpositive v = v.
Proof.
  intros H. unfold guard_nonpositive.
  now rewrite positive_not_leb by now apply ltb_positive.
Qed.

Lemma guard_nonpositive_fires (v : float) :
  (v <=? 0) = true -> guard_nonpositive v = nan.
Proof. intros H. unfold guard_nonpositive. now rewrite H. Qed.

Lemma sqrt_positive (v : float) :
  SFpositive (Prim2SF v) -> SFpositive (Prim2SF (sqrt v)).
Proof.
  intros H. rewrite FloatAxioms.sqrt_spec. pose proof (Prim2SF_valid v) as Hv.
  destruct (Prim2SF v) as [?|[]| |[] m e]; try contradiction; [exact I|].
  apply SFsqrt_pos. eapply valid_finite_emin, Hv.
Qed.

(** The standard error at a voxel is NaN or strictly positive. *)
Lemma voxel_se_sum_cases (v : voxel) :
  voxel_se_sum v = nan \/ SFpositive (Prim2SF (voxel_se_sum v)).
Proof.
  unfold voxel_se_sum, voxel_var_sum.
  destruct (guard_nonpositive_cases (vx_var1 v + vx_var2 v + 2 * vx_cov12 v))
    as [->|[-> H]].
  - now left.
  - right. now apply sqrt_positive.
Qed.


Lemma nan_to_num_scalar_nan (n : float) : nan_to_num_scalar n nan = n.
Proof. reflexivity. Qed.

Lemma nan_to_num_scalar_finite (n x : float) :
  is_finite x = true -> nan_to_num_scalar n x = x.
Proof.
  unfold is_finite, is_infinity, nan_to_num_scalar, is_nan.
  rewrite !FloatAxioms.eqb_spec, FloatAxioms.abs_spec.
  change (Prim2SF infinity) with (S754_infinity false).
  change (Prim2SF neg_infinity) with (S754_infinity true).
  destruct (Prim2SF x) as [?|[]| |? ? ?] eqn:E; try discriminate; try reflexivity.
  rewrite SFeqb_refl by discriminate. reflexivity.
Qed.

Lemma leb_finite (p : float) :
  (0 <=? p) = true -> (p <=? 1) = true -> is_finite p = true.
Proof.
  unfold is_finite, is_infinity, is_nan.
  rewrite !FloatAxioms.leb_spec, !FloatAxioms.eqb_spec, FloatAxioms.abs_spec.
  rewrite Prim2SF_zero, Prim2SF_one.
  change (Prim2SF infinity) with (S754_infinity false).
  destruct (Prim2SF p) as [?|[]| |[] ? ?] eqn:E; try discriminate; try reflexivity.
  intros _ _. rewrite SFeqb_refl by discriminate. reflexivity.
Qed.

Lemma SFleb_finite_pos (m1 m2 : positive) (e1 e2 : Z) :
  SFleb (S754_finite false m1 e1) (S754_finite false m2 e2) = true <->
  (e1 < e2 \/ (e1 = e2 /\ Z.pos m1 <= Z.pos m2))%Z.
Proof.
  cbv [SFleb SFcompare]. rewrite Pos.compare_cont_spec. simpl Pos.switch_Eq.
  destruct (Z.compare_spec e1 e2) as [He|He|He].
  - destruct (Pos.compare_spec m1 m2) as [Hm|Hm|Hm]; split; intros H;
      try reflexivity; try discriminate; lia.
  - split; intros H; [lia|reflexivity].
  - split; intros H; [discriminate|lia].
Qed.

(** The two-sided transform maps [[0.5, 1]] into [[0, 1]], exactly. *)
Lemma two_sided_range (c : float) :
  (0.5 <=? c) = true -> (c <=? 1) = true ->
  (0 <=? 2 * (1 - c)) = true /\ (2 * (1 - c) <=? 1) = true.
Proof.
  intros H1 H2. pose proof (Prim2SF_valid c) as Hv.
  rewrite FloatAxioms.leb_spec, Prim2SF_half in H1.
  rewrite FloatAxioms.leb_spec, Prim2SF_one in H2.
  destruct (Prim2SF c) as [?|[]| |[] m e] eqn:E; try discriminate.
  apply SFleb_finite_pos in H1, H2.
  unfold SpecFloat.valid_binary, bounded, canonical_mantissa in Hv.
  rewrite fexp64 in Hv. apply andb_true_iff in Hv as [Hc _]. apply Z.eqb_eq in Hc.
  unfold emin64 in Hc.
  pose proof (digits2_pos_lower m) as Hlo.
  assert (Hd : digits2_pos m = 53%positive).
  { assert (Z.pos (digits2_pos m) = 53%Z) as [= ->] by lia. reflexivity. }
  rewrite Hd in Hlo. change (2 ^ (53 - 1))%Z with 4503599627370496%Z in Hlo.
  assert (He : e = (-53)%Z \/ (e = (-52)%Z /\ m = 4503599627370496%positive)) by lia.
  clear H1 H2 Hc Hlo. destruct He as [-> | [-> ->]].
  - destruct (SFsub_one_range m Hd) as (my & ey & Hsub & Hdy & Hey & Heq).
    assert (Hp : Prim2SF (2 * (1 - c)) = S754_finite false my (ey + 1)).
    { rewrite FloatAxioms.mul_spec, FloatAxioms.sub_spec, Prim2SF_two, Prim2SF_one, E, Hsub.
      apply SFmul_two; [exact Hdy|unfold emin64; lia]. }
    rewrite !FloatAxioms.leb_spec, Hp, Prim2SF_zero, Prim2SF_one. split; [reflexivity|].
    apply SFleb_finite_pos.
    destruct (Z.eq_dec ey (-53)%Z) as [Hz|Hz]; [|lia].
    right. rewrite (Heq Hz). lia.
  - assert (c = 1) as ->.
    { apply Prim2SF_inj. rewrite E. symmetry. exact Prim2SF_one. }
    split; reflexivity.
Qed.

(** The sign bit of [abs x] is clear, so [abs x < 0] never holds. *)
Lemma abs_not_negative (x : float) : (abs x <? 0) = false.
Proof.
  rewrite FloatAxioms.ltb_spec, FloatAxioms.abs_spec, Prim2SF_zero.
  now destruct (Prim2SF x) as [?|?| |? ? ?].
Qed.


Lemma add_comm (x y : float) : x + y = y + x.
Proof. apply Prim2SF_inj. rewrite !FloatAxioms.add_spec. apply SFadd_comm. Qed.

Lemma add_nan_r (x : float) : x + nan = nan.
Proof.
  apply Prim2SF_inj. rewrite FloatAxioms.add_spec, Prim2SF_nan.
  now destruct (Prim2SF x) as [[]|[]| |? ? ?].
Qed.

Lemma add_nan_l (x : float) : nan + x = nan.
Proof. rewrite add_comm. apply add_nan_r. Qed.

Lemma div_nan_l (x : float) : nan / x = nan.
Proof.
  apply Prim2SF_inj. rewrite FloatAxioms.div_spec, Prim2SF_nan. reflexivity.
Qed.


(** NaN cleaning leaves no NaN and no infinity behind. *)
Lemma nan_to_num_scalar_is_finite (n x : float) :
  is_finite n = true -> is_finite (nan_to_num_scalar n x) = true.
Proof.
  intros Hn. unfold nan_to_num_scalar.
  destruct (is_nan x) eqn:Hx; [exact Hn|].
  destruct (x =? infinity) eqn:Hp; [reflexivity|].
  destruct (x =? neg_infinity) eqn:Hm; [reflexivity|].
  revert Hx Hp Hm. unfold is_finite, is_infinity, is_nan.
  rewrite !FloatAxioms.eqb_spec, FloatAxioms.abs_spec.
  change (Prim2SF infinity) with (S754_infinity false).
  change (Prim2SF neg_infinity) with (S754_infinity true).
  destruct (Prim2SF x) as [?|[]| |? ? ?]; try discriminate; try reflexivity.
  intros H _ _. apply negb_false_iff in H. now rewrite H.
Qed.




End PrimitiveFloats.

(** * The store: allocation and lookup *)

Section Store.

Lemma next_fresh (w : world) : heap w !! next w = None.
Proof. unfold next. apply not_elem_of_dom. apply is_fresh. Qed.

Lemma alloc_lookup_new (w : world) (a : ndarray) :
  heap (alloc w a) !! next w = Some a.
Proof. apply lookup_insert_eq. Qed.

Lemma alloc_lookup_old (w : world) (a x : ndarray) (r : loc) :
  heap w !! r = Some x -> heap (alloc w a) !! r = Some x.
Proof.
  intros H. simpl. rewrite lookup_insert_ne; [exact H|].
  intros <-. rewrite next_fresh in H. discriminate.
Qed.

Lemma alloc_files (w : world) (a : ndarray) : files (alloc w a) = files w.
Proof. reflexivity. Qed.

Lemma alloc_subseteq (w : world) (a : ndarray) : heap w ⊆ heap (alloc w a).
Proof. apply insert_subseteq, next_fresh. Qed.

Lemma bind_ok {A B} (m : M A) (k : A -> M B) (w w' : world) (a : A) :
  m w = (Ok a, w') -> (m ≫= k) w = k a w'.
Proof. intros H. unfold mbind, M_bind. now rewrite H. Qed.

Lemma bind_raise {A B} (m : M A) (k : A -> M B) (w w' : world) (e : exn) :
  m w = (Raise e, w') -> (m ≫= k) w = (Raise e, w').
Proof. intros H. unfold mbind, M_bind. now rewrite H. Qed.

Lemma get_array_ok (l : loc) (x : ndarray) (w : world) :
  heap w !! l = Some x -> get_array l w = (Ok x, w).
Proof. intros H. unfold get_array. now rewrite H. Qed.

Lemma new_array_ok (a : ndarray) (w : world) :
  new_array a w = (Ok (next w), alloc w a).
Proof. reflexivity. Qed.

Lemma elementwise1_ok (f : float -> float) (a : loc) (x : ndarray) (w : world) :
  heap w !! a = Some x ->
  elementwise1 f a w = (Ok (next w), alloc w (NDArray (shape x) (f <$> data x))).
Proof.
  intros H. unfold elementwise1.
  rewrite (bind_ok _ _ _ _ _ (get_array_ok _ _ _ H)). apply new_array_ok.
Qed.

Lemma elementwise2_ok (f : float -> float -> float) (a b : loc)
    (x y : ndarray) (w : world) :
  heap w !! a = Some x -> heap w !! b = Some y -> shape x = shape y ->
  elementwise2 f a b w
  = (Ok (next w), alloc w (NDArray (shape x) (zip_with f (data x) (data y)))).
Proof.
  intros Ha Hb Hs. unfold elementwise2.
  rewrite (bind_ok _ _ _ _ _ (get_array_ok _ _ _ Ha)).
  rewrite (bind_ok _ _ _ _ _ (get_array_ok _ _ _ Hb)).
  rewrite decide_True by exact Hs. apply new_array_ok.
Qed.

Lemma less_equal_scalar_ok (a : loc) (k : float) (x : ndarray) (w : world) :
  heap w !! a = Some x ->
  less_equal_scalar a k w = (Ok ((fun v => (v <=? k)%float) <$> data x), w).
Proof.
  intros H. unfold less_equal_scalar.
  now rewrite (bind_ok _ _ _ _ _ (get_array_ok _ _ _ H)).
Qed.

(** Assigning through the mask to an array that was just allocated is the
    same as allocating the updated array in the first place. *)
Lemma setitem_mask_fresh (w : world) (x : ndarray) (mask : list bool) (v : float) :
  setitem_mask (next w) mask v (alloc w x)
  = (Ok tt, alloc w (NDArray (shape x)
       (zip_with (fun old (m : bool) => if m then v else old) (data x) mask))).
Proof.
  unfold setitem_mask.
  rewrite (bind_ok _ _ _ _ _ (get_array_ok _ _ _ (alloc_lookup_new w x))).
  unfold set_array, alloc. simpl. now rewrite insert_insert_eq.
Qed.

(** Masking with the array's own comparison is a map of the guard. *)
Lemma mask_assign_guard (l : list float) :
  zip_with (fun old (m : bool) => if m then nan else old) l
           ((fun v => (v <=? 0)%float) <$> l)
  = guard_nonpositive <$> l.
Proof.
  induction l as [|v l IH]; [reflexivity|].
  rewrite !fmap_cons. cbn [zip_with]. now rewrite IH.
Qed.

End Store.

Create HintDb store.
#[local] Hint Resolve alloc_lookup_new alloc_lookup_old : store.

(** * Running [compute_combined_pvalue] *)

Section Run.

Variable t_cdf : float -> Z -> float.

Ltac run1 :=
  erewrite bind_ok by (apply elementwise1_ok; eauto 20 with store); cbv beta.
Ltac run2 :=
  erewrite bind_ok
    by (apply elementwise2_ok; [eauto 20 with store|eauto 20 with store|reflexivity]);
  cbv beta.

(** On five arrays of one shape the body runs to completion; every local
    array has that shape and the contents given above; the files and all
    objects that existed before the call are as they were. *)
Lemma compute_combined_pvalue_body_ok
    (w : world) (beta1 beta2 var1 var2 cov12 : loc) (df : Z) (x : inputs) :
  bound w beta1 beta2 var1 var2 cov12 x -> same_shape x ->
  exists ls w',
    compute_combined_pvalue_body t_cdf beta1 beta2 var1 var2 cov12 df w = (Ok ls, w') /\
    files w' = files w /\ heap w ⊆ heap w' /\
    let sh := shape (in_beta1 x) in
    heap w' !! var_sum ls = Some (NDArray sh (array_var_sum x)) /\
    heap w' !! se_sum ls = Some (NDArray sh (array_se_sum x)) /\
    heap w' !! beta_sum ls = Some (NDArray sh (array_beta_sum x)) /\
    heap w' !! t_stat ls = Some (NDArray sh (array_t_stat x)) /\
    heap w' !! p_value_with_nans ls = Some (NDArray sh (array_p_with_nans t_cdf df x)) /\
    heap w' !! p_value_no_nans ls = Some (NDArray sh (array_p t_cdf df x)).
Proof.
  intros (Hb1 & Hb2 & Hv1 & Hv2 & Hc) Hs.
  unfold array_p, array_p_with_nans, array_t_stat, array_se_sum, array_beta_sum,
    array_var_sum.
  destruct x as [[sh d1] [s2 d2] [s3 d3] [s4 d4] [s5 d5]].
  unfold same_shape in Hs. simpl in *. destruct Hs as (-> & -> & -> & ->).
  unfold compute_combined_pvalue_body, np_add, np_divide, np_sqrt, np_abs,
    scalar_mul, scalar_sub, t_cdf_array, np_nan_to_num.
  do 2 eexists. split; [|split; [|split]].
  - run2. run1. run2.
    erewrite bind_ok by (apply less_equal_scalar_ok; eauto with store). cbv beta.
    erewrite bind_ok by apply setitem_mask_fresh. cbv beta.
    cbn [data shape]. rewrite mask_assign_guard.
    run1. run2. run2. run1. run1. run1. run1. run1.
    reflexivity.
  - reflexivity.
  - repeat (etrans; [|apply alloc_subseteq]). reflexivity.
  - cbn [var_sum se_sum beta_sum t_stat p_value_with_nans p_value_no_nans].
    repeat split; eauto 20 with store.
Qed.


(** Element [i] of each local array is the voxel function of the inputs'
    elements [i]. *)
Ltac by_lookup :=
  unfold voxel_at; repeat (rewrite lookup_zip_with || rewrite list_lookup_fmap);
  repeat match goal with
    | |- context [data ?a !! ?i] => destruct (data a !! i); simpl; try reflexivity
    end.

Lemma array_t_stat_lookup (x : inputs) (i : nat) :
  array_t_stat x !! i = voxel_t_stat <$> voxel_at x i.
Proof.
  unfold array_t_stat, array_se_sum, array_beta_sum, array_var_sum. by_lookup.
Qed.

Lemma array_p_with_nans_lookup (df : Z) (x : inputs) (i : nat) :
  array_p_with_nans t_cdf df x !! i = voxel_p_with_nans t_cdf df <$> voxel_at x i.
Proof.
  unfold array_p_with_nans. rewrite !list_lookup_fmap, array_t_stat_lookup.
  now destruct (voxel_at x i).
Qed.

Lemma array_p_lookup (df : Z) (x : inputs) (i : nat) :
  array_p t_cdf df x !! i = voxel_p t_cdf df <$> voxel_at x i.
Proof.
  unfold array_p. rewrite list_lookup_fmap, array_p_with_nans_lookup.
  now destruct (voxel_at x i).
Qed.

Lemma voxel_at_Some (x : inputs) (i : nat) (v : voxel) :
  voxel_at x i = Some v ->
  data (in_beta1 x) !! i = Some (vx_beta1 v) /\
  data (in_beta2 x) !! i = Some (vx_beta2 v) /\
  data (in_var1 x) !! i = Some (vx_var1 v) /\
  data (in_var2 x) !! i = Some (vx_var2 v) /\
  data (in_cov12 x) !! i = Some (vx_cov12 v).
Proof.
  unfold voxel_at. intros H.
  destruct (data (in_beta1 x) !! i), (data (in_beta2 x) !! i),
    (data (in_var1 x) !! i), (data (in_var2 x) !! i), (data (in_cov12 x) !! i);
    try discriminate.
  injection H as <-. now repeat split.
Qed.

Lemma array_var_sum_at (x : inputs) (i : nat) (v : voxel) :
  voxel_at x i = Some v -> array_var_sum x !! i = Some (voxel_var_sum v).
Proof.
  intros H. apply voxel_at_Some in H as (_ & _ & H1 & H2 & H3).
  unfold array_var_sum. rewrite list_lookup_fmap, !lookup_zip_with, list_lookup_fmap.
  now rewrite H1, H2, H3.
Qed.

Lemma array_se_sum_at (x : inputs) (i : nat) (v : voxel) :
  voxel_at x i = Some v -> array_se_sum x !! i = Some (voxel_se_sum v).
Proof.
  intros H. unfold array_se_sum.
  now rewrite list_lookup_fmap, (array_var_sum_at _ _ _ H).
Qed.

Lemma array_beta_sum_at (x : inputs) (i : nat) (v : voxel) :
  voxel_at x i = Some v -> array_beta_sum x !! i = Some (voxel_beta_sum v).
Proof.
  intros H. apply voxel_at_Some in H as (H1 & H2 & _).
  unfold array_beta_sum. rewrite lookup_zip_with. now rewrite H1, H2.
Qed.

(** The call returns the last local of the body. *)
Lemma compute_combined_pvalue_unfold
    (w : world) (beta1 beta2 var1 var2 cov12 : loc) (df : Z) :
  compute_combined_pvalue t_cdf beta1 beta2 var1 var2 cov12 df w
  = match compute_combined_pvalue_body t_cdf beta1 beta2 var1 var2 cov12 df w with
    | (Ok ls, w') => (Ok (p_value_no_nans ls), w')
    | (Raise e, w') => (Raise e, w')
    end.
Proof. reflexivity. Qed.

(** On five arrays of one shape the call returns, without raising, a new
    array of that shape holding [voxel_p] of the inputs at every index. *)
Lemma compute_combined_pvalue_ok
    (w : world) (beta1 beta2 var1 var2 cov12 : loc) (df : Z) (x : inputs) :
  bound w beta1 beta2 var1 var2 cov12 x -> same_shape x ->
  exists l w',
    compute_combined_pvalue t_cdf beta1 beta2 var1 var2 cov12 df w = (Ok l, w') /\
    files w' = files w /\ heap w ⊆ heap w' /\
    heap w' !! l = Some (NDArray (shape (in_beta1 x)) (array_p t_cdf df x)) /\
    forall i, element w' l i = voxel_p t_cdf df <$> voxel_at x i.
Proof.
  intros Hb Hs.
  destruct (compute_combined_pvalue_body_ok w _ _ _ _ _ df x Hb Hs)
    as (ls & w' & Hrun & Hf & Hsub & _ & _ & _ & _ & _ & Hp).
  exists (p_value_no_nans ls), w'. rewrite compute_combined_pvalue_unfold, Hrun.
  repeat split; try assumption.
  intros i. unfold element. rewrite Hp. simpl. apply array_p_lookup.
Qed.

End Run.

(** * The computation at one voxel *)

Section VoxelFacts.
Import Float64.
Local Open Scope float_scope.

Variable t_cdf : float -> Z -> float.

Lemma voxel_se_sum_positive (v : voxel) :
  (0 <? raw_var_sum v) = true ->
  voxel_se_sum v = sqrt (raw_var_sum v) /\ SFpositive (Prim2SF (voxel_se_sum v)).
Proof.
  intros H. unfold voxel_se_sum, voxel_var_sum. fold (raw_var_sum v).
  rewrite guard_nonpositive_positive by exact H.
  split; [reflexivity|]. now apply sqrt_positive, ltb_positive.
Qed.

(** With a positive variance the guard is inert and the absolute value
    moves to the numerator. *)
Lemma voxel_p_with_nans_positive (df : Z) (v : voxel) :
  (0 <? raw_var_sum v) = true ->
  voxel_p_with_nans t_cdf df v
  = 2 * (1 - t_cdf (abs (vx_beta1 v + vx_beta2 v) / sqrt (raw_var_sum v)) df).
Proof.
  intros H. destruct (voxel_se_sum_positive v H) as [Hse Hpos].
  unfold voxel_p_with_nans, voxel_t_stat, voxel_beta_sum.
  rewrite abs_div, (abs_of_positive (voxel_se_sum v)) by now right.
  now rewrite Hse.
Qed.

Lemma voxel_t_stat_degenerate (v : voxel) :
  (raw_var_sum v <=? 0) = true -> voxel_t_stat v = nan.
Proof.
  intros H. unfold voxel_t_stat, voxel_se_sum, voxel_var_sum. fold (raw_var_sum v).
  rewrite guard_nonpositive_fires by exact H.
  change (sqrt nan) with nan. apply div_nan_r.
Qed.

Lemma voxel_p_degenerate (df : Z) (v : voxel) :
  t_cdf nan df = nan ->
  (raw_var_sum v <=? 0) = true -> voxel_p t_cdf df v = 0.
Proof.
  intros Hnan H. unfold voxel_p, voxel_p_with_nans.
  rewrite voxel_t_stat_degenerate by exact H.
  change (abs nan) with nan. rewrite Hnan. reflexivity.
Qed.

Lemma eqb_zero (x : float) :
  (x =? 0) = true -> exists s, Prim2SF x = S754_zero s.
Proof.
  rewrite FloatAxioms.eqb_spec, Prim2SF_zero.
  destruct (Prim2SF x) as [s|[]| |[] ? ?]; try discriminate. now exists s.
Qed.

Lemma voxel_p_zero_beta (df : Z) (v : voxel) :
  t_cdf 0 df = 0.5 ->
  (vx_beta1 v + vx_beta2 v =? 0) = true -> (0 <? raw_var_sum v) = true ->
  voxel_p t_cdf df v = 1.
Proof.
  intros Hhalf Hb Hv. destruct (voxel_se_sum_positive v Hv) as [_ Hpos].
  destruct (eqb_zero _ Hb) as [sb Hsb].
  assert (Ht : abs (voxel_t_stat v) = 0).
  { apply Prim2SF_inj. unfold voxel_t_stat, voxel_beta_sum.
    rewrite FloatAxioms.abs_spec, FloatAxioms.div_spec, Hsb, Prim2SF_zero.
    now destruct (Prim2SF (voxel_se_sum v)) as [?|[]| |[] ? ?]. }
  unfold voxel_p, voxel_p_with_nans. rewrite Ht, Hhalf. reflexivity.
Qed.

(** Where the value before NaN-cleaning is NaN the output is 0; where it
    lies in [[0, 1]] it is returned as it is. *)
Lemma voxel_p_of_nan (df : Z) (v : voxel) :
  is_nan (voxel_p_with_nans t_cdf df v) = true -> voxel_p t_cdf df v = 0.
Proof. intros H. apply is_nan_true in H. unfold voxel_p. now rewrite H. Qed.

Lemma voxel_p_of_finite (df : Z) (v : voxel) :
  is_finite (voxel_p_with_nans t_cdf df v) = true ->
  voxel_p t_cdf df v = voxel_p_with_nans t_cdf df v.
Proof. apply nan_to_num_scalar_finite. Qed.

Lemma voxel_p_range (df : Z) (v : voxel) :
  (forall x, (x <? 0) = false ->
     is_nan (t_cdf x df) = true \/
     ((0.5 <=? t_cdf x df) = true /\ (t_cdf x df <=? 1) = true)) ->
  (0 <=? voxel_p t_cdf df v) = true /\ (voxel_p t_cdf df v <=? 1) = true.
Proof.
  intros Hcdf. unfold voxel_p, voxel_p_with_nans.
  destruct (Hcdf _ (abs_not_negative (voxel_t_stat v))) as [Hn|[Hlo Hhi]].
  - apply is_nan_true in Hn. rewrite Hn. split; reflexivity.
  - destruct (two_sided_range _ Hlo Hhi) as [H0 H1].
    rewrite nan_to_num_scalar_finite by now apply leb_finite.
    now split.
Qed.

(** Negating both coefficients leaves [|t_stat|], hence the p-value, as it
    was. *)
Lemma voxel_p_negate_betas (df : Z) (v : voxel) :
  voxel_p t_cdf df (negate_betas v) = voxel_p t_cdf df v.
Proof.
  unfold voxel_p, voxel_p_with_nans. do 4 f_equal.
  unfold voxel_t_stat, voxel_beta_sum, negate_betas. simpl.
  rewrite !abs_div. f_equal. apply abs_add_opp.
Qed.

(** A zero covariance drops out of the guarded variance. *)
Lemma guard_zero_covariance (v1 v2 c : float) :
  (c =? 0) = true ->
  guard_nonpositive (v1 + v2 + 2 * c) = guard_nonpositive (v1 + v2).
Proof.
  intros Hc. destruct (eqb_zero _ Hc) as [sc Hsc].
  assert (H2c : Prim2SF (2 * c) = S754_zero sc).
  { rewrite FloatAxioms.mul_spec, Prim2SF_two, Hsc. reflexivity. }
  pose proof (FloatAxioms.add_spec (v1 + v2) (2 * c)) as Hadd. rewrite H2c in Hadd.
  destruct (Prim2SF (v1 + v2)) as [ss|?| |? ? ?] eqn:Hs.
  - unfold guard_nonpositive.
    assert (Hl : (v1 + v2 + 2 * c <=? 0) = true).
    { rewrite FloatAxioms.leb_spec, Hadd, Prim2SF_zero. now destruct ss, sc. }
    assert (Hr : (v1 + v2 <=? 0) = true).
    { rewrite FloatAxioms.leb_spec, Hs, Prim2SF_zero. reflexivity. }
    now rewrite Hl, Hr.
  - f_equal. apply Prim2SF_inj. now rewrite Hadd, Hs.
  - f_equal. apply Prim2SF_inj. now rewrite Hadd, Hs.
  - f_equal. apply Prim2SF_inj. now rewrite Hadd, Hs.
Qed.

(** The quotient [beta_sum / se_sum] is NaN only for a NaN operand or for
    an infinite numerator over an infinite denominator. *)
Lemma voxel_t_stat_nan (v : voxel) :
  is_nan (voxel_t_stat v) = true ->
  is_nan (voxel_beta_sum v) = true \/ is_nan (voxel_se_sum v) = true \/
  (is_infinity (voxel_beta_sum v) = true /\ voxel_se_sum v = infinity).
Proof.
  intros H. apply is_nan_true in H. unfold voxel_t_stat in H.
  apply (f_equal Prim2SF) in H. rewrite FloatAxioms.div_spec, Prim2SF_nan in H.
  destruct (voxel_se_sum_cases v) as [Hs|Hs].
  { right; left. now apply is_nan_true. }
  destruct (Prim2SF (voxel_beta_sum v)) as [sb|sb| |sb mb eb] eqn:Hb.
  - exfalso. now destruct (Prim2SF (voxel_se_sum v)) as [?|[]| |[] ? ?].
  - right; right. split.
    + unfold is_infinity. rewrite FloatAxioms.eqb_spec, FloatAxioms.abs_spec, Hb.
      reflexivity.
    + apply Prim2SF_inj.
      now destruct (Prim2SF (voxel_se_sum v)) as [?|[]| |[] ? ?].
  - left. apply is_nan_true. now apply Prim2SF_nan_inv.
  - exfalso.
    destruct (Prim2SF (voxel_se_sum v)) as [?|[]| |[] ms es]; try contradiction;
      try discriminate.
    now apply SFdiv_finite_not_nan in H.
Qed.

End VoxelFacts.

(** * What a call leaves behind, whatever the shapes *)

Section Frame.

Variable t_cdf : float -> Z -> float.

Lemma elementwise2_mismatch (f : float -> float -> float) (a b : loc)
    (x y : ndarray) (w : world) :
  heap w !! a = Some x -> heap w !! b = Some y -> shape x <> shape y ->
  elementwise2 f a b w = (Raise BroadcastNotModelled, w).
Proof.
  intros Ha Hb Hs. unfold elementwise2.
  rewrite (bind_ok _ _ _ _ _ (get_array_ok _ _ _ Ha)).
  rewrite (bind_ok _ _ _ _ _ (get_array_ok _ _ _ Hb)).
  now rewrite decide_False by exact Hs.
Qed.

Lemma next_not_below (w w' : world) : heap w ⊆ heap w' -> heap w !! next w' = None.
Proof. intros H. eapply lookup_weaken_None; [apply next_fresh|exact H]. Qed.

Ltac run1 :=
  erewrite bind_ok by (apply elementwise1_ok; eauto 20 with store); cbv beta.
Ltac run2 :=
  erewrite bind_ok
    by (apply elementwise2_ok; [eauto 20 with store|eauto 20 with store|assumption]);
  cbv beta.
Ltac fail2 :=
  erewrite bind_raise
    by (eapply elementwise2_mismatch; [eauto 20 with store|eauto 20 with store|assumption]).
Ltac grown := repeat (etrans; [|apply alloc_subseteq]); reflexivity.

(** Whether the body returns or stops at a shape mismatch, the files and
    every object that existed before the call are untouched, and the array
    the guard writes to is one that did not exist before the call. *)
Lemma compute_combined_pvalue_body_frame
    (w : world) (beta1 beta2 var1 var2 cov12 : loc) (df : Z) (x : inputs) :
  bound w beta1 beta2 var1 var2 cov12 x ->
  let r := compute_combined_pvalue_body t_cdf beta1 beta2 var1 var2 cov12 df w in
  files (snd r) = files w /\ heap w ⊆ heap (snd r) /\
  forall ls, fst r = Ok ls -> heap w !! var_sum ls = None.
Proof.
  intros (Hb1 & Hb2 & Hv1 & Hv2 & Hc).
  unfold compute_combined_pvalue_body, np_add, np_divide, np_sqrt, np_abs,
    scalar_mul, scalar_sub, t_cdf_array, np_nan_to_num.
  destruct (decide (shape (in_var1 x) = shape (in_var2 x))) as [E1|N1];
    [|fail2; cbn [fst snd]; split; [reflexivity|split; [grown|intros ls [=]]]].
  run2. run1.
  destruct (decide (shape (in_var1 x) = shape (in_cov12 x))) as [E2|N2];
    [|fail2; cbn [fst snd]; split; [reflexivity|split; [grown|intros ls [=]]]].
  run2.
  erewrite bind_ok by (apply less_equal_scalar_ok; eauto with store). cbv beta.
  erewrite bind_ok by apply setitem_mask_fresh. cbv beta.
  run1.
  destruct (decide (shape (in_beta1 x) = shape (in_beta2 x))) as [E3|N3];
    [|fail2; cbn [fst snd]; split; [reflexivity|split; [grown|intros ls [=]]]].
  run2.
  destruct (decide (shape (in_beta1 x) = shape (in_var1 x))) as [E4|N4];
    [|fail2; cbn [fst snd]; split; [reflexivity|split; [grown|intros ls [=]]]].
  run2. run1. run1. run1. run1. run1.
  cbn [fst snd mret M_ret]. split; [reflexivity|split; [grown|]].
  intros ls [= <-]. cbn [var_sum]. apply next_not_below. grown.
Qed.

End Frame.

(** * Running [main] *)

Section MainRun.

Variable t_cdf : float -> Z -> float.

Lemma shapes_chain_equal_true (a b c d e : ndarray) :
  shapes_chain_equal a b c d e = true <-> same_shape (Inputs a b c d e).
Proof.
  unfold shapes_chain_equal, same_shape. simpl.
  rewrite !andb_true_iff, !bool_decide_eq_true. intuition congruence.
Qed.

Lemma all_agree_same_shape (x : inputs) : all_agree x <-> same_shape x.
Proof.
  unfold all_agree, same_shape, arrays. split.
  - intros H. repeat split; apply H; set_solver.
  - intros (H2 & H3 & H4 & H5) a b Ha Hb.
    assert (Hall : forall y, y ∈ arrays x -> shape y = shape (in_beta1 x)).
    { intros y Hy. unfold arrays in Hy. set_unfold in Hy.
      destruct Hy as [->|[->|[->|[->|[->|[]]]]]]; congruence. }
    now rewrite (Hall a Ha), (Hall b Hb).
Qed.

Lemma some_two_differ_not_same (x : inputs) : some_two_differ x -> ~ same_shape x.
Proof.
  intros (a & b & Ha & Hb & Hne) Hs. apply all_agree_same_shape in Hs. auto.
Qed.

Lemma nib_load_ok (path : string) (img : nifti_image) (w : world) :
  files w !! path = Some img -> nib_load path w = (Ok img, w).
Proof. intros H. unfold nib_load. now rewrite H. Qed.

Lemma load_nifti_ok (path : string) (img : nifti_image) (w : world) :
  files w !! path = Some img ->
  load_nifti path w = (Ok (next w), alloc w (img_data img)).
Proof.
  intros H. unfold load_nifti.
  now rewrite (bind_ok _ _ _ _ _ (nib_load_ok _ _ _ H)).
Qed.

(** [main] on five readable files: with a shape mismatch it raises the
    [ValueError] in the world the five loads produced; with equal shapes it
    returns, having written one image to the output path. *)
Lemma main_run (w : world) (args : Namespace) (i1 i2 i3 i4 i5 : nifti_image) :
  files w !! beta4 args = Some i1 -> files w !! beta6 args = Some i2 ->
  files w !! var4 args = Some i3 -> files w !! var6 args = Some i4 ->
  files w !! cov46 args = Some i5 ->
  let x := Inputs (img_data i1) (img_data i2) (img_data i3) (img_data i4) (img_data i5) in
  (~ same_shape x ->
     main t_cdf args w = (Raise (ValueError shape_mismatch_message), loaded w x)) /\
  (same_shape x ->
     exists w' out,
       main t_cdf args w = (Ok tt, w') /\
       files w' = <[output args := NiftiImage out (img_affine i1) (img_header i1)]> (files w)).
Proof.
  intros H1 H2 H3 H4 H5 x.
  assert (Hmain : main t_cdf args w =
    (if negb (shapes_chain_equal (img_data i1) (img_data i2) (img_data i3)
                (img_data i4) (img_data i5))
     then raise (ValueError shape_mismatch_message)
     else
       p_map ← compute_combined_pvalue t_cdf (next w)
                 (next (alloc w (img_data i1)))
                 (next (alloc (alloc w (img_data i1)) (img_data i2)))
                 (next (alloc (alloc (alloc w (img_data i1)) (img_data i2)) (img_data i3)))
                 (next (alloc (alloc (alloc (alloc w (img_data i1)) (img_data i2))
                                 (img_data i3)) (img_data i4)))
                 (n_obs args - n_predictors args - 1)%Z;
       save_nifti p_map (output args) (beta4 args)) (loaded w x)).
  { unfold main.
    do 5 (erewrite bind_ok by (apply load_nifti_ok; eassumption); cbv beta).
    do 5 (erewrite bind_ok by (apply get_array_ok; eauto 20 with store); cbv beta).
    reflexivity. }
  rewrite Hmain. clear Hmain. split; intros Hs.
  - apply (not_iff_compat (shapes_chain_equal_true _ _ _ _ _)) in Hs.
    apply not_true_is_false in Hs. now rewrite Hs.
  - pose proof (proj2 (shapes_chain_equal_true _ _ _ _ _) Hs) as Hc. rewrite Hc.
    cbn [negb].
    edestruct (compute_combined_pvalue_ok t_cdf (loaded w x)) as (l & w' & Hrun & Hf & _ & Hl & _);
      [|exact Hs|].
    { unfold bound, loaded, x; cbn [in_beta1 in_beta2 in_var1 in_var2 in_cov12].
      repeat split; eauto 20 with store. }
    erewrite bind_ok by exact Hrun.
    assert (Hfw : files w' !! beta4 args = Some i1) by (rewrite Hf; exact H1).
    unfold save_nifti.
    rewrite (bind_ok _ _ _ _ _ (nib_load_ok _ _ _ Hfw)).
    rewrite (bind_ok _ _ _ _ _ (get_array_ok _ _ _ Hl)).
    eexists _, _. split; [reflexivity|]. cbn [files nib_save]. now rewrite Hf.
Qed.

End MainRun.

(** * The claims *)

Section Claims.
Local Open Scope float_scope.

Variable t_cdf : float -> Z -> float.

(** C1, as amended.  At a voxel where [var_a + var_b + 2*cov_ab > 0], let
    [p = 2 * (1 - T_cdf(|beta_a + beta_b| / sqrt(var_a + var_b + 2*cov_ab), df))],
    computed in binary64.  The call returns, and its output at the voxel is
    [p] whenever [p] is a finite number, and 0 whenever [p] is NaN. *)
Theorem positive_variance_output
    (w : world) (beta1 beta2 var1 var2 cov12 : loc) (df : Z)
    (x : inputs) (i : nat) (v : voxel) :
  bound w beta1 beta2 var1 var2 cov12 x -> same_shape x ->
  voxel_at x i = Some v -> (0 <? raw_var_sum v) = true ->
  let p := 2 * (1 - t_cdf (abs (vx_beta1 v + vx_beta2 v) / sqrt (raw_var_sum v)) df) in
  exists l w',
    compute_combined_pvalue t_cdf beta1 beta2 var1 var2 cov12 df w = (Ok l, w') /\
    (is_finite p = true -> element w' l i = Some p) /\
    (is_nan p = true -> element w' l i = Some 0).
Proof.
  intros Hb Hs Hv Hpos p.
  destruct (compute_combined_pvalue_ok t_cdf w _ _ _ _ _ df x Hb Hs)
    as (l & w' & Hrun & _ & _ & _ & Hel).
  exists l, w'. split; [exact Hrun|]. rewrite Hel, Hv. simpl.
  pose proof (voxel_p_with_nans_positive t_cdf df v Hpos) as Hp. fold p in Hp.
  split; intros H; f_equal.
  - rewrite <- Hp in H |- *. now apply voxel_p_of_finite.
  - rewrite <- Hp in H. now apply voxel_p_of_nan.
Qed.

(** C2.  At a voxel where [var_a + var_b + 2*cov_ab <= 0] the call returns
    normally and its output there is exactly 0, whatever the coefficients
    ([t_cdf] maps NaN to NaN, as scipy's does). *)
Theorem degenerate_variance_output_zero
    (w : world) (beta1 beta2 var1 var2 cov12 : loc) (df : Z)
    (x : inputs) (i : nat) (v : voxel) :
  t_cdf nan df = nan ->
  bound w beta1 beta2 var1 var2 cov12 x -> same_shape x ->
  voxel_at x i = Some v -> (raw_var_sum v <=? 0) = true ->
  exists l w',
    compute_combined_pvalue t_cdf beta1 beta2 var1 var2 cov12 df w = (Ok l, w') /\
    element w' l i = Some 0.
Proof.
  intros Hnan Hb Hs Hv Hneg.
  destruct (compute_combined_pvalue_ok t_cdf w _ _ _ _ _ df x Hb Hs)
    as (l & w' & Hrun & _ & _ & _ & Hel).
  exists l, w'. split; [exact Hrun|]. rewrite Hel, Hv. simpl. f_equal.
  now apply voxel_p_degenerate.
Qed.

(** C3.  When the five files can be read: if some two of the arrays differ
    in shape, [main] raises the [ValueError] in the world that the five
    loads produced (no array of the core was allocated) and the files are
    as before; if all five shapes agree, [main] returns without raising. *)
Theorem shape_mismatch_raises_before_core
    (w : world) (args : Namespace) (i1 i2 i3 i4 i5 : nifti_image) :
  files w !! beta4 args = Some i1 -> files w !! beta6 args = Some i2 ->
  files w !! var4 args = Some i3 -> files w !! var6 args = Some i4 ->
  files w !! cov46 args = Some i5 ->
  let x := Inputs (img_data i1) (img_data i2) (img_data i3) (img_data i4) (img_data i5) in
  (some_two_differ x ->
     main t_cdf args w = (Raise (ValueError shape_mismatch_message), loaded w x) /\
     files (loaded w x) = files w) /\
  (all_agree x -> exists w', main t_cdf args w = (Ok tt, w')).
Proof.
  intros H1 H2 H3 H4 H5 x.
  destruct (main_run t_cdf w args i1 i2 i3 i4 i5 H1 H2 H3 H4 H5) as [Hbad Hgood].
  fold x in Hbad, Hgood. split.
  - intros Hd. split; [|reflexivity]. now apply Hbad, some_two_differ_not_same.
  - intros Ha. apply all_agree_same_shape in Ha.
    destruct (Hgood Ha) as (w' & out & Hrun & _). now exists w'.
Qed.

(** C4.  If [t_cdf], at arguments that are not negative, returns NaN or a
    value in [[0.5, 1]], then every element of the returned array lies in
    [[0, 1]], and a voxel whose p-value is NaN before cleaning holds
    exactly 0. *)
Theorem output_in_unit_interval
    (w : world) (beta1 beta2 var1 var2 cov12 : loc) (df : Z) (x : inputs) :
  (forall y, (y <? 0) = false ->
     is_nan (t_cdf y df) = true \/
     ((0.5 <=? t_cdf y df) = true /\ (t_cdf y df <=? 1) = true)) ->
  bound w beta1 beta2 var1 var2 cov12 x -> same_shape x ->
  exists l w' out,
    compute_combined_pvalue t_cdf beta1 beta2 var1 var2 cov12 df w = (Ok l, w') /\
    heap w' !! l = Some out /\
    (forall i p, data out !! i = Some p -> (0 <=? p) = true /\ (p <=? 1) = true) /\
    (forall i v, voxel_at x i = Some v ->
       is_nan (voxel_p_with_nans t_cdf df v) = true -> data out !! i = Some 0).
Proof.
  intros Hcdf Hb Hs.
  destruct (compute_combined_pvalue_ok t_cdf w _ _ _ _ _ df x Hb Hs)
    as (l & w' & Hrun & _ & _ & Hl & _).
  exists l, w', (NDArray (shape (in_beta1 x)) (array_p t_cdf df x)).
  split; [exact Hrun|]. split; [exact Hl|]. cbn [data]. split.
  - intros i p. rewrite array_p_lookup.
    destruct (voxel_at x i) as [v|]; [|discriminate].
    intros [= <-]. now apply voxel_p_range.
  - intros i v Hv Hn. rewrite array_p_lookup, Hv. simpl. f_equal.
    now apply voxel_p_of_nan.
Qed.

Lemma voxel_at_negative (x : inputs) (i : nat) :
  voxel_at (Inputs (negative (in_beta1 x)) (negative (in_beta2 x))
              (in_var1 x) (in_var2 x) (in_cov12 x)) i
  = negate_betas <$> voxel_at x i.
Proof.
  unfold voxel_at, negative. cbn [in_beta1 in_beta2 in_var1 in_var2 in_cov12 data].
  rewrite !list_lookup_fmap.
  destruct (data (in_beta1 x) !! i), (data (in_beta2 x) !! i),
    (data (in_var1 x) !! i), (data (in_var2 x) !! i), (data (in_cov12 x) !! i);
    reflexivity.
Qed.

(** C5.  Calling the function on the negated coefficient maps (with the
    same variances and covariance) returns an array equal to the one
    returned for the coefficient maps themselves. *)
Theorem negation_symmetry
    (w : world) (beta1 beta2 var1 var2 cov12 neg1 neg2 : loc) (df : Z) (x : inputs) :
  bound w beta1 beta2 var1 var2 cov12 x -> same_shape x ->
  heap w !! neg1 = Some (negative (in_beta1 x)) ->
  heap w !! neg2 = Some (negative (in_beta2 x)) ->
  exists l w1 l' w2 out,
    compute_combined_pvalue t_cdf beta1 beta2 var1 var2 cov12 df w = (Ok l, w1) /\
    compute_combined_pvalue t_cdf neg1 neg2 var1 var2 cov12 df w = (Ok l', w2) /\
    heap w1 !! l = Some out /\ heap w2 !! l' = Some out.
Proof.
  intros Hb Hs Hn1 Hn2.
  set (x' := Inputs (negative (in_beta1 x)) (negative (in_beta2 x))
               (in_var1 x) (in_var2 x) (in_cov12 x)).
  assert (Hb' : bound w neg1 neg2 var1 var2 cov12 x').
  { destruct Hb as (_ & _ & H3 & H4 & H5). now repeat split. }
  assert (Hs' : same_shape x') by exact Hs.
  destruct (compute_combined_pvalue_ok t_cdf w _ _ _ _ _ df x Hb Hs)
    as (l & w1 & Hrun & _ & _ & Hl & _).
  destruct (compute_combined_pvalue_ok t_cdf w _ _ _ _ _ df x' Hb' Hs')
    as (l' & w2 & Hrun' & _ & _ & Hl' & _).
  exists l, w1, l', w2, (NDArray (shape (in_beta1 x)) (array_p t_cdf df x)).
  repeat split; try assumption.
  rewrite Hl'. do 2 f_equal. apply list_eq. intros i.
  rewrite !array_p_lookup. unfold x'. rewrite voxel_at_negative.
  destruct (voxel_at x i) as [v|]; [|reflexivity]. simpl. f_equal.
  apply voxel_p_negate_betas.
Qed.

(** C6.  With a covariance map that is zero everywhere, the variance the
    function works with at each voxel is that of [var_a + var_b], and its
    output is the p-value for the sum of two independent coefficients. *)
Theorem zero_covariance_reduction
    (w : world) (beta1 beta2 var1 var2 cov12 : loc) (df : Z) (x : inputs) :
  bound w beta1 beta2 var1 var2 cov12 x -> same_shape x ->
  Forall (fun c => (c =? 0) = true) (data (in_cov12 x)) ->
  exists ls w',
    compute_combined_pvalue_body t_cdf beta1 beta2 var1 var2 cov12 df w = (Ok ls, w') /\
    compute_combined_pvalue t_cdf beta1 beta2 var1 var2 cov12 df w
      = (Ok (p_value_no_nans ls), w') /\
    forall i v, voxel_at x i = Some v ->
      element w' (var_sum ls) i = Some (guard_nonpositive (vx_var1 v + vx_var2 v)) /\
      element w' (p_value_no_nans ls) i = Some (independent_sum_pvalue t_cdf df v).
Proof.
  intros Hb Hs Hz.
  destruct (compute_combined_pvalue_body_ok t_cdf w _ _ _ _ _ df x Hb Hs)
    as (ls & w' & Hrun & _ & _ & Hvs & _ & _ & _ & _ & Hp).
  exists ls, w'. split; [exact Hrun|]. split.
  { now rewrite compute_combined_pvalue_unfold, Hrun. }
  intros i v Hv.
  assert (Hc : (vx_cov12 v =? 0) = true).
  { apply voxel_at_Some in Hv as (_ & _ & _ & _ & Hc).
    exact (proj1 (Forall_lookup _ _) Hz _ _ Hc). }
  pose proof (guard_zero_covariance (vx_var1 v) (vx_var2 v) (vx_cov12 v) Hc) as Hg.
  unfold element. rewrite Hvs, Hp. cbn [mbind option_bind data].
  rewrite (array_var_sum_at _ _ _ Hv), array_p_lookup, Hv. simpl.
  split; f_equal.
  - exact Hg.
  - unfold voxel_p, voxel_p_with_nans, voxel_t_stat, voxel_se_sum, voxel_var_sum,
      voxel_beta_sum, independent_sum_pvalue. now rewrite Hg.
Qed.

(** C7.  At a voxel where [beta_a + beta_b = 0] and
    [var_a + var_b + 2*cov_ab > 0], the output is exactly 1 (for a [df] at
    which [t_cdf] is 1/2 at zero). *)
Theorem zero_beta_sum_output_one
    (w : world) (beta1 beta2 var1 var2 cov12 : loc) (df : Z)
    (x : inputs) (i : nat) (v : voxel) :
  t_cdf 0 df = 0.5 ->
  bound w beta1 beta2 var1 var2 cov12 x -> same_shape x ->
  voxel_at x i = Some v ->
  (vx_beta1 v + vx_beta2 v =? 0) = true -> (0 <? raw_var_sum v) = true ->
  exists l w',
    compute_combined_pvalue t_cdf beta1 beta2 var1 var2 cov12 df w = (Ok l, w') /\
    element w' l i = Some 1.
Proof.
  intros Hhalf Hb Hs Hv Hz Hpos.
  destruct (compute_combined_pvalue_ok t_cdf w _ _ _ _ _ df x Hb Hs)
    as (l & w' & Hrun & _ & _ & _ & Hel).
  exists l, w'. split; [exact Hrun|]. rewrite Hel, Hv. simpl. f_equal.
  now apply voxel_p_zero_beta.
Qed.

Lemma agree_at_voxel (x x' : inputs) (i : nat) :
  agree_at x x' i -> voxel_at x i = voxel_at x' i.
Proof.
  intros (H1 & H2 & H3 & H4 & H5). unfold voxel_at.
  now rewrite H1, H2, H3, H4, H5.
Qed.

(** C8.  Two calls with the same [df], each on five arrays of one shape:
    if the five inputs agree at index [i], both calls return and their
    outputs agree at [i], whatever the other voxels hold. *)
Theorem per_voxel_independence
    (w w' : world) (beta1 beta2 var1 var2 cov12 : loc)
    (beta1' beta2' var1' var2' cov12' : loc) (df : Z) (x x' : inputs) (i : nat) :
  bound w beta1 beta2 var1 var2 cov12 x ->
  bound w' beta1' beta2' var1' var2' cov12' x' ->
  same_shape x -> same_shape x' -> agree_at x x' i ->
  exists l w1 l' w1',
    compute_combined_pvalue t_cdf beta1 beta2 var1 var2 cov12 df w = (Ok l, w1) /\
    compute_combined_pvalue t_cdf beta1' beta2' var1' var2' cov12' df w' = (Ok l', w1') /\
    element w1 l i = element w1' l' i.
Proof.
  intros Hb Hb' Hs Hs' Ha.
  destruct (compute_combined_pvalue_ok t_cdf w _ _ _ _ _ df x Hb Hs)
    as (l & w1 & Hrun & _ & _ & _ & Hel).
  destruct (compute_combined_pvalue_ok t_cdf w' _ _ _ _ _ df x' Hb' Hs')
    as (l' & w1' & Hrun' & _ & _ & _ & Hel').
  exists l, w1, l', w1'. repeat split; try assumption.
  now rewrite Hel, Hel', (agree_at_voxel _ _ _ Ha).
Qed.

(** C9.  Whatever the outcome of the call (also when it stops at a shape
    mismatch), the five input arrays are what they were, as is every other
    object that existed before and every file; and the array that the guard
    writes NaN into is one that did not exist before the call. *)
Theorem inputs_unchanged_by_call
    (w : world) (beta1 beta2 var1 var2 cov12 : loc) (df : Z) (x : inputs) :
  bound w beta1 beta2 var1 var2 cov12 x ->
  let r := compute_combined_pvalue t_cdf beta1 beta2 var1 var2 cov12 df w in
  bound (snd r) beta1 beta2 var1 var2 cov12 x /\
  files (snd r) = files w /\ heap w ⊆ heap (snd r) /\
  (forall ls w',
     compute_combined_pvalue_body t_cdf beta1 beta2 var1 var2 cov12 df w = (Ok ls, w') ->
     heap w !! var_sum ls = None).
Proof.
  intros Hb r.
  destruct (compute_combined_pvalue_body_frame t_cdf w _ _ _ _ _ df x Hb)
    as (Hf & Hsub & Hfresh).
  assert (Hr : snd r
    = snd (compute_combined_pvalue_body t_cdf beta1 beta2 var1 var2 cov12 df w)).
  { unfold r. rewrite compute_combined_pvalue_unfold.
    now destruct (compute_combined_pvalue_body t_cdf _ _ _ _ _ df w) as [[?|?] ?]. }
  rewrite Hr. split; [|split; [exact Hf|split; [exact Hsub|]]].
  - destruct Hb as (H1 & H2 & H3 & H4 & H5).
    repeat split; eapply lookup_weaken; eassumption.
  - intros ls w' Hrun. apply Hfresh. now rewrite Hrun.
Qed.

(** C10, as amended.  In every call on five arrays of one shape, at every
    voxel the divisor [se_sum] is NaN or strictly positive, never zero, and
    the quotient [t_stat = beta_sum / se_sum] is NaN only when [beta_sum] is
    NaN, [se_sum] is NaN, or [beta_sum] is infinite and [se_sum] is
    [+infinity]. *)
Theorem standard_error_nan_or_positive
    (w : world) (beta1 beta2 var1 var2 cov12 : loc) (df : Z) (x : inputs) :
  bound w beta1 beta2 var1 var2 cov12 x -> same_shape x ->
  exists ls w',
    compute_combined_pvalue_body t_cdf beta1 beta2 var1 var2 cov12 df w = (Ok ls, w') /\
    forall i v, voxel_at x i = Some v ->
      exists b s,
        element w' (beta_sum ls) i = Some b /\
        element w' (se_sum ls) i = Some s /\
        element w' (t_stat ls) i = Some (b / s) /\
        (is_nan s = true \/ (0 <? s) = true) /\
        (is_nan (b / s) = true ->
           is_nan b = true \/ is_nan s = true \/
           (is_infinity b = true /\ s = infinity)).
Proof.
  intros Hb Hs.
  destruct (compute_combined_pvalue_body_ok t_cdf w _ _ _ _ _ df x Hb Hs)
    as (ls & w' & Hrun & _ & _ & _ & Hse & Hbs & Ht & _).
  exists ls, w'. split; [exact Hrun|]. intros i v Hv.
  exists (voxel_beta_sum v), (voxel_se_sum v). unfold element.
  rewrite Hbs, Hse, Ht. cbn [mbind option_bind data].
  rewrite (array_beta_sum_at _ _ _ Hv), (array_se_sum_at _ _ _ Hv),
    array_t_stat_lookup, Hv.
  repeat split.
  - destruct (voxel_se_sum_cases v) as [H|H].
    + left. now apply is_nan_true.
    + right. now apply positive_ltb.
  - apply voxel_t_stat_nan.
Qed.

End Claims.

(** * The claims on concrete inputs *)

Section Instances.
Local Open Scope float_scope.

(** The array a call returns, if it returns. *)
Definition returned (t_cdf : float -> Z -> float) (df : Z) (w : world) : option ndarray :=
  match compute_combined_pvalue t_cdf 1%positive 2%positive 3%positive 4%positive
          5%positive df w with
  | (Ok l, w') => heap w' !! l
  | (Raise _, _) => None
  end.

(** The three example voxels: [t_stat = 0.75]; a negative variance; and a
    zero coefficient sum. *)
Example example_run_two :
  returned t_cdf_two 50 example_world
  = Some (NDArray [3%nat] [2 * (1 - t_cdf_two 0.75 50); 0; 1]).
Proof. vm_compute. reflexivity. Qed.

Example example_run_ref :
  returned t_cdf_ref 50 example_world = Some (NDArray [3%nat] [0; 0; 1]).
Proof. vm_compute. reflexivity. Qed.

(** Both sums overflow: the output is 0 although the variance is positive. *)
Example overflow_run :
  returned t_cdf_two 50 overflow_world = Some (NDArray [1%nat] [0]).
Proof. vm_compute. reflexivity. Qed.

(** Arguments of different shapes are outside the model. *)
Example mismatch_run :
  fst (compute_combined_pvalue t_cdf_two 1%positive 2%positive 3%positive
         4%positive 5%positive 50
         (world_of (Inputs (in_beta1 example_inputs) (in_beta2 example_inputs)
                      (in_var1 example_inputs) (in_var2 example_inputs)
                      mismatched_cov)))
  = Raise BroadcastNotModelled.
Proof. vm_compute. reflexivity. Qed.

(** [main] writes the p-value map under the output path, with the geometry
    of the first coefficient map. *)
Example main_run_example :
  let '(r, w') := main t_cdf_ref example_args (example_files (in_cov12 example_inputs)) in
  r = Ok tt /\
  files w' !! "p.nii" = Some (image_of (NDArray [3%nat] [0; 0; 1])).
Proof. vm_compute. split; reflexivity. Qed.

Lemma t_cdf_ref_nan (df : Z) : t_cdf_ref nan df = nan.
Proof. unfold t_cdf_ref. now destruct (df <=? 0)%Z. Qed.

Lemma t_cdf_ref_upper_half (df : Z) (y : float) :
  (y <? 0) = false ->
  is_nan (t_cdf_ref y df) = true \/
  ((0.5 <=? t_cdf_ref y df) = true /\ (t_cdf_ref y df <=? 1) = true).
Proof.
  intros H. unfold t_cdf_ref. destruct (df <=? 0)%Z; [now left|].
  destruct (is_nan y); [now left|]. rewrite H.
  destruct (y =? 0); right; split; reflexivity.
Qed.

Lemma world_of_bound (x : inputs) :
  bound (world_of x) 1%positive 2%positive 3%positive 4%positive 5%positive x.
Proof. repeat split. Qed.

Lemma example_same_shape : same_shape example_inputs.
Proof. repeat split. Qed.

Lemma positive_variance_witness :
  exists l w',
    compute_combined_pvalue t_cdf_two 1%positive 2%positive 3%positive 4%positive
      5%positive 50 example_world = (Ok l, w') /\
    element w' l 0 = Some (2 * (1 - t_cdf_two (0.75 / 1) 50)).
Proof.
  destruct (positive_variance_output t_cdf_two example_world 1%positive 2%positive
              3%positive 4%positive 5%positive 50 example_inputs 0
              (Voxel 0.5 0.25 0.25 0.5 0.125))
    as (l & w' & Hrun & Hfinite & _).
  - apply world_of_bound.
  - apply example_same_shape.
  - reflexivity.
  - reflexivity.
  - exists l, w'. split; [exact Hrun|]. apply Hfinite. reflexivity.
Defined.

Lemma degenerate_variance_witness :
  exists l w',
    compute_combined_pvalue t_cdf_ref 1%positive 2%positive 3%positive 4%positive
      5%positive 50 example_world = (Ok l, w') /\
    element w' l 1 = Some 0.
Proof.
  apply (degenerate_variance_output_zero t_cdf_ref example_world 1%positive
           2%positive 3%positive 4%positive 5%positive 50 example_inputs 1
           (Voxel 1 1 (-1) 0 0)).
  - apply t_cdf_ref_nan.
  - apply world_of_bound.
  - apply example_same_shape.
  - reflexivity.
  - reflexivity.
Defined.

(** At [overflow_inputs] every input is finite and the combined variance is
    positive ([+infinity]), yet for any [t_cdf] that maps NaN to NaN the
    output is not the value of the formula: [|beta_sum| / sqrt(var_sum)] is
    [infinity / infinity], the formula is NaN, and the output is 0. *)
Lemma finite_inputs_overflow_counterexample :
  bound overflow_world 1%positive 2%positive 3%positive 4%positive 5%positive
    overflow_inputs /\
  same_shape overflow_inputs /\
  voxel_at overflow_inputs 0 = Some overflow_voxel /\
  is_finite (vx_beta1 overflow_voxel) = true /\
  is_finite (vx_beta2 overflow_voxel) = true /\
  is_finite (vx_var1 overflow_voxel) = true /\
  is_finite (vx_var2 overflow_voxel) = true /\
  is_finite (vx_cov12 overflow_voxel) = true /\
  (0 <? raw_var_sum overflow_voxel) = true /\
  forall (t_cdf : float -> Z -> float) (df : Z), t_cdf nan df = nan ->
    ~ exists l w',
        compute_combined_pvalue t_cdf 1%positive 2%positive 3%positive 4%positive
          5%positive df overflow_world = (Ok l, w') /\
        element w' l 0
        = Some (2 * (1 - t_cdf (abs (vx_beta1 overflow_voxel + vx_beta2 overflow_voxel)
                                / sqrt (raw_var_sum overflow_voxel)) df)).
Proof.
  split; [apply world_of_bound|]. split; [repeat split|].
  repeat (split; [reflexivity|]).
  intros t_cdf df Hnan (l & w' & Hrun & Hel).
  destruct (compute_combined_pvalue_ok t_cdf overflow_world 1%positive 2%positive
              3%positive 4%positive 5%positive df overflow_inputs)
    as (l0 & w0 & Hrun0 & _ & _ & _ & Hel0).
  { apply world_of_bound. }
  { repeat split. }
  rewrite Hrun in Hrun0. injection Hrun0 as <- <-.
  rewrite Hel0 in Hel.
  change (voxel_at overflow_inputs 0) with (Some overflow_voxel) in Hel.
  cbn [fmap option_fmap option_map] in Hel.
  unfold voxel_p, voxel_p_with_nans in Hel.
  change (abs (voxel_t_stat overflow_voxel)) with nan in Hel.
  change (abs (vx_beta1 overflow_voxel + vx_beta2 overflow_voxel)
          / sqrt (raw_var_sum overflow_voxel)) with nan in Hel.
  rewrite Hnan in Hel.
  apply (f_equal (fun o => match o with Some y => is_nan y | None => false end)) in Hel.
  discriminate Hel.
Qed.

Lemma shape_mismatch_witness :
  main t_cdf_ref example_args (example_files mismatched_cov)
  = (Raise (ValueError shape_mismatch_message),
     loaded (example_files mismatched_cov)
       (Inputs (in_beta1 example_inputs) (in_beta2 example_inputs)
          (in_var1 example_inputs) (in_var2 example_inputs)
          mismatched_cov)) /\
  exists w', main t_cdf_ref example_args (example_files (in_cov12 example_inputs))
             = (Ok tt, w').
Proof.
  split.
  - apply (shape_mismatch_raises_before_core t_cdf_ref
             (example_files mismatched_cov) example_args
             (image_of (in_beta1 example_inputs)) (image_of (in_beta2 example_inputs))
             (image_of (in_var1 example_inputs)) (image_of (in_var2 example_inputs))
             (image_of mismatched_cov));
      try reflexivity.
    exists (in_beta1 example_inputs), mismatched_cov.
    split; [|split].
    + apply list_elem_of_here.
    + do 4 apply list_elem_of_further. apply list_elem_of_here.
    + discriminate.
  - apply (shape_mismatch_raises_before_core t_cdf_ref
             (example_files (in_cov12 example_inputs)) example_args
             (image_of (in_beta1 example_inputs)) (image_of (in_beta2 example_inputs))
             (image_of (in_var1 example_inputs)) (image_of (in_var2 example_inputs))
             (image_of (in_cov12 example_inputs)));
      try reflexivity.
    apply all_agree_same_shape. apply example_same_shape.
Defined.

Lemma unit_interval_witness :
  exists l w' out,
    compute_combined_pvalue t_cdf_ref 1%positive 2%positive 3%positive 4%positive
      5%positive 50 example_world = (Ok l, w') /\
    heap w' !! l = Some out /\
    (forall i p, data out !! i = Some p -> (0 <=? p) = true /\ (p <=? 1) = true) /\
    (forall i v, voxel_at example_inputs i = Some v ->
       is_nan (voxel_p_with_nans t_cdf_ref 50 v) = true -> data out !! i = Some 0).
Proof.
  apply (output_in_unit_interval t_cdf_ref example_world 1%positive 2%positive
           3%positive 4%positive 5%positive 50 example_inputs).
  - apply t_cdf_ref_upper_half.
  - apply world_of_bound.
  - apply example_same_shape.
Defined.

Lemma negation_witness :
  exists l w1 l' w2 out,
    compute_combined_pvalue t_cdf_two 1%positive 2%positive 3%positive 4%positive
      5%positive 50 negated_world = (Ok l, w1) /\
    compute_combined_pvalue t_cdf_two 6%positive 7%positive 3%positive 4%positive
      5%positive 50 negated_world = (Ok l', w2) /\
    heap w1 !! l = Some out /\ heap w2 !! l' = Some out.
Proof.
  apply (negation_symmetry t_cdf_two negated_world 1%positive 2%positive 3%positive
           4%positive 5%positive 6%positive 7%positive 50 example_inputs).
  - repeat split.
  - apply example_same_shape.
  - reflexivity.
  - reflexivity.
Defined.

Lemma zero_covariance_witness :
  exists ls w',
    compute_combined_pvalue_body t_cdf_two 1%positive 2%positive 3%positive
      4%positive 5%positive 50 (world_of independent_inputs) = (Ok ls, w') /\
    compute_combined_pvalue t_cdf_two 1%positive 2%positive 3%positive 4%positive
      5%positive 50 (world_of independent_inputs) = (Ok (p_value_no_nans ls), w') /\
    forall i v, voxel_at independent_inputs i = Some v ->
      element w' (var_sum ls) i = Some (guard_nonpositive (vx_var1 v + vx_var2 v)) /\
      element w' (p_value_no_nans ls) i = Some (independent_sum_pvalue t_cdf_two 50 v).
Proof.
  apply (zero_covariance_reduction t_cdf_two (world_of independent_inputs)
           1%positive 2%positive 3%positive 4%positive 5%positive 50
           independent_inputs).
  - apply world_of_bound.
  - repeat split.
  - repeat constructor.
Defined.

Lemma zero_beta_sum_witness :
  exists l w',
    compute_combined_pvalue t_cdf_ref 1%positive 2%positive 3%positive 4%positive
      5%positive 50 example_world = (Ok l, w') /\
    element w' l 2 = Some 1.
Proof.
  apply (zero_beta_sum_output_one t_cdf_ref example_world 1%positive 2%positive
           3%positive 4%positive 5%positive 50 example_inputs 2
           (Voxel (-1) 1 1 1 0)); try reflexivity.
  - apply world_of_bound.
  - apply example_same_shape.
Defined.

Lemma per_voxel_witness :
  exists l w1 l' w1',
    compute_combined_pvalue t_cdf_two 1%positive 2%positive 3%positive 4%positive
      5%positive 50 example_world = (Ok l, w1) /\
    compute_combined_pvalue t_cdf_two 1%positive 2%positive 3%positive 4%positive
      5%positive 50 (world_of perturbed_inputs) = (Ok l', w1') /\
    element w1 l 0 = element w1' l' 0.
Proof.
  apply (per_voxel_independence t_cdf_two example_world (world_of perturbed_inputs)
           1%positive 2%positive 3%positive 4%positive 5%positive
           1%positive 2%positive 3%positive 4%positive 5%positive
           50 example_inputs perturbed_inputs 0).
  - apply world_of_bound.
  - apply world_of_bound.
  - apply example_same_shape.
  - repeat split.
  - repeat split.
Defined.

(** The same array object passed as [var1] and as [var2]. *)
Lemma inputs_unchanged_witness :
  let r := compute_combined_pvalue t_cdf_two 1%positive 2%positive 3%positive
             3%positive 5%positive 50 example_world in
  bound (snd r) 1%positive 2%positive 3%positive 3%positive 5%positive aliased_inputs /\
  files (snd r) = files example_world /\ heap example_world ⊆ heap (snd r) /\
  (forall ls w',
     compute_combined_pvalue_body t_cdf_two 1%positive 2%positive 3%positive
       3%positive 5%positive 50 example_world = (Ok ls, w') ->
     heap example_world !! var_sum ls = None).
Proof.
  apply (inputs_unchanged_by_call t_cdf_two example_world 1%positive 2%positive
           3%positive 3%positive 5%positive 50 aliased_inputs).
  repeat split.
Defined.

Lemma standard_error_witness :
  exists ls w',
    compute_combined_pvalue_body t_cdf_two 1%positive 2%positive 3%positive
      4%positive 5%positive 50 example_world = (Ok ls, w') /\
    forall i v, voxel_at example_inputs i = Some v ->
      exists b s,
        element w' (beta_sum ls) i = Some b /\
        element w' (se_sum ls) i = Some s /\
        element w' (t_stat ls) i = Some (b / s) /\
        (is_nan s = true \/ (0 <? s) = true) /\
        (is_nan (b / s) = true ->
           is_nan b = true \/ is_nan s = true \/
           (is_infinity b = true /\ s = infinity)).
Proof.
  apply (standard_error_nan_or_positive t_cdf_two example_world 1%positive
           2%positive 3%positive 4%positive 5%positive 50 example_inputs).
  - apply world_of_bound.
  - apply example_same_shape.
Defined.

(** At [overflow_inputs], where every input is finite, the quotient is NaN
    although neither operand is: [beta_sum] and [se_sum] are both
    [+infinity]. *)
Lemma infinite_quotient_counterexample :
  bound overflow_world 1%positive 2%positive 3%positive 4%positive 5%positive
    overflow_inputs /\
  same_shape overflow_inputs /\
  forall (t_cdf : float -> Z -> float) (df : Z),
    exists ls w' b s t,
      compute_combined_pvalue_body t_cdf 1%positive 2%positive 3%positive 4%positive
        5%positive df overflow_world = (Ok ls, w') /\
      element w' (beta_sum ls) 0 = Some b /\
      element w' (se_sum ls) 0 = Some s /\
      element w' (t_stat ls) 0 = Some t /\
      is_nan t = true /\ is_nan b = false /\ is_nan s = false.
Proof.
  split; [apply world_of_bound|]. split; [repeat split|].
  intros t_cdf df.
  destruct (compute_combined_pvalue_body_ok t_cdf overflow_world 1%positive 2%positive
              3%positive 4%positive 5%positive df overflow_inputs)
    as (ls & w' & Hrun & _ & _ & _ & Hse & Hbs & Ht & _).
  { apply world_of_bound. }
  { repeat split. }
  exists ls, w', infinity, infinity, nan. split; [exact Hrun|]. unfold element.
  rewrite Hbs, Hse, Ht. repeat split.
Qed.

End Instances.

(** * Further properties of the core *)

Ltac step1 :=
  erewrite bind_ok by (apply elementwise1_ok; eauto 20 with store); cbv beta.
Ltac step2 :=
  erewrite bind_ok
    by (apply elementwise2_ok; [eauto 20 with store|eauto 20 with store|reflexivity]);
  cbv beta.
Ltac grows := repeat (etrans; [|apply alloc_subseteq]); reflexivity.

Section MoreVoxelFacts.
Import Float64.
Local Open Scope float_scope.

Variable t_cdf : float -> Z -> float.

Lemma voxel_p_is_finite (df : Z) (v : voxel) : is_finite (voxel_p t_cdf df v) = true.
Proof. apply nan_to_num_scalar_is_finite. reflexivity. Qed.

Lemma voxel_t_stat_has_nan (v : voxel) : has_nan v -> voxel_t_stat v = nan.
Proof.
  destruct v as [b1 b2 v1 v2 c].
  unfold has_nan, voxel_t_stat, voxel_beta_sum, voxel_se_sum, voxel_var_sum.
  cbn [vx_beta1 vx_beta2 vx_var1 vx_var2 vx_cov12].
  intros [H|[H|[H|[H|H]]]]; apply is_nan_true in H; subst.
  - now rewrite add_nan_l, div_nan_l.
  - now rewrite add_nan_r, div_nan_l.
  - rewrite !add_nan_l. apply div_nan_r.
  - rewrite add_nan_r, add_nan_l. apply div_nan_r.
  - change (2 * nan) with nan. rewrite add_nan_r. apply div_nan_r.
Qed.

Lemma voxel_p_has_nan (df : Z) (v : voxel) :
  t_cdf nan df = nan -> has_nan v -> voxel_p t_cdf df v = 0.
Proof.
  intros Hnan Hv. unfold voxel_p, voxel_p_with_nans.
  rewrite (voxel_t_stat_has_nan v Hv). change (abs nan) with nan.
  now rewrite Hnan.
Qed.

Lemma voxel_p_exchange (df : Z) (v : voxel) :
  voxel_p t_cdf df (exchange_voxel v) = voxel_p t_cdf df v.
Proof.
  unfold voxel_p, voxel_p_with_nans, voxel_t_stat, voxel_beta_sum, voxel_se_sum,
    voxel_var_sum, exchange_voxel.
  cbn [vx_beta1 vx_beta2 vx_var1 vx_var2 vx_cov12].
  now rewrite (add_comm (vx_beta2 v)), (add_comm (vx_var2 v)).
Qed.


End MoreVoxelFacts.

Section CoreProperties.
Local Open Scope float_scope.

Variable t_cdf : float -> Z -> float.

(** The reference a call returns is one that was not in use before it. *)
Lemma compute_combined_pvalue_fresh
    (w : world) (beta1 beta2 var1 var2 cov12 : loc) (df : Z) (x : inputs)
    (l : loc) (w' : world) :
  bound w beta1 beta2 var1 var2 cov12 x -> same_shape x ->
  compute_combined_pvalue t_cdf beta1 beta2 var1 var2 cov12 df w = (Ok l, w') ->
  heap w !! l = None.
Proof.
  intros (Hb1 & Hb2 & Hv1 & Hv2 & Hc) Hs Hrun.
  destruct x as [[sh d1] [s2 d2] [s3 d3] [s4 d4] [s5 d5]].
  unfold same_shape in Hs. simpl in *. destruct Hs as (-> & -> & -> & ->).
  eassert (Hbody : compute_combined_pvalue_body t_cdf beta1 beta2 var1 var2 cov12 df w = _).
  { unfold compute_combined_pvalue_body, np_add, np_divide, np_sqrt, np_abs,
      scalar_mul, scalar_sub, t_cdf_array, np_nan_to_num.
    step2. step1. step2.
    erewrite bind_ok by (apply less_equal_scalar_ok; eauto with store). cbv beta.
    erewrite bind_ok by apply setitem_mask_fresh. cbv beta.
    step1. step2. step2. step1. step1. step1. step1. step1.
    reflexivity. }
  rewrite compute_combined_pvalue_unfold, Hbody in Hrun.
  injection Hrun as <- <-. apply next_not_below. grows.
Qed.

Lemma array_p_length (df : Z) (x : inputs) (n : nat) :
  all_of_length x n -> length (array_p t_cdf df x) = n.
Proof.
  unfold all_of_length, arrays. intros H.
  repeat match goal with
    | H : Forall _ (_ :: _) |- _ => apply Forall_cons in H as [? H]
    end.
  unfold array_p, array_p_with_nans, array_t_stat, array_se_sum, array_beta_sum,
    array_var_sum.
  rewrite ?length_fmap, ?length_zip_with, ?length_fmap, ?length_zip_with,
    ?length_fmap, ?length_zip_with, ?length_fmap. lia.
Qed.

(** X1.  On five arrays of one shape, each holding [n] elements, the call
    returns a new array object (its reference was not in use before the
    call) of the inputs' shape and with [n] elements. *)
Theorem returns_new_array_of_input_shape
    (w : world) (beta1 beta2 var1 var2 cov12 : loc) (df : Z) (x : inputs) (n : nat) :
  bound w beta1 beta2 var1 var2 cov12 x -> same_shape x -> all_of_length x n ->
  exists l w' out,
    compute_combined_pvalue t_cdf beta1 beta2 var1 var2 cov12 df w = (Ok l, w') /\
    heap w !! l = None /\ heap w' !! l = Some out /\
    shape out = shape (in_beta1 x) /\ length (data out) = n.
Proof.
  intros Hb Hs Hn.
  destruct (compute_combined_pvalue_ok t_cdf w _ _ _ _ _ df x Hb Hs)
    as (l & w' & Hrun & _ & _ & Hl & _).
  exists l, w', (NDArray (shape (in_beta1 x)) (array_p t_cdf df x)).
  split; [exact Hrun|]. split; [|split; [exact Hl|split; [reflexivity|]]].
  - eapply compute_combined_pvalue_fresh; eassumption.
  - now apply array_p_length.
Qed.

(** X2.  Whatever [t_cdf] returns (NaN and infinities included), every
    element of the returned array is a finite number: the final
    [nan_to_num] leaves no NaN and no infinity in the output. *)
Theorem output_elements_finite
    (w : world) (beta1 beta2 var1 var2 cov12 : loc) (df : Z) (x : inputs) :
  bound w beta1 beta2 var1 var2 cov12 x -> same_shape x ->
  exists l w' out,
    compute_combined_pvalue t_cdf beta1 beta2 var1 var2 cov12 df w = (Ok l, w') /\
    heap w' !! l = Some out /\
    forall i p, data out !! i = Some p -> is_finite p = true.
Proof.
  intros Hb Hs.
  destruct (compute_combined_pvalue_ok t_cdf w _ _ _ _ _ df x Hb Hs)
    as (l & w' & Hrun & _ & _ & Hl & _).
  exists l, w', (NDArray (shape (in_beta1 x)) (array_p t_cdf df x)).
  split; [exact Hrun|]. split; [exact Hl|]. cbn [data].
  intros i p. rewrite array_p_lookup.
  destruct (voxel_at x i) as [v|]; [|discriminate].
  intros [= <-]. apply voxel_p_is_finite.
Qed.

(** X3.  At a voxel where any of the five inputs is NaN the output is
    exactly 0 ([t_cdf] maps NaN to NaN). *)
Theorem nan_input_output_zero
    (w : world) (beta1 beta2 var1 var2 cov12 : loc) (df : Z)
    (x : inputs) (i : nat) (v : voxel) :
  t_cdf nan df = nan ->
  bound w beta1 beta2 var1 var2 cov12 x -> same_shape x ->
  voxel_at x i = Some v -> has_nan v ->
  exists l w',
    compute_combined_pvalue t_cdf beta1 beta2 var1 var2 cov12 df w = (Ok l, w') /\
    element w' l i = Some 0.
Proof.
  intros Hnan Hb Hs Hv Hn.
  destruct (compute_combined_pvalue_ok t_cdf w _ _ _ _ _ df x Hb Hs)
    as (l & w' & Hrun & _ & _ & _ & Hel).
  exists l, w'. split; [exact Hrun|]. rewrite Hel, Hv. simpl. f_equal.
  now apply voxel_p_has_nan.
Qed.

Lemma voxel_at_exchange (x : inputs) (i : nat) :
  voxel_at (exchange x) i = exchange_voxel <$> voxel_at x i.
Proof.
  unfold voxel_at, exchange. cbn [in_beta1 in_beta2 in_var1 in_var2 in_cov12].
  destruct (data (in_beta1 x) !! i), (data (in_beta2 x) !! i),
    (data (in_var1 x) !! i), (data (in_var2 x) !! i), (data (in_cov12 x) !! i);
    reflexivity.
Qed.

(** X4.  The two coefficients play the same role: calling the function with
    the coefficient maps exchanged, and their variance maps with them,
    returns an array equal to the one of the original call. *)
Theorem exchange_symmetry
    (w : world) (beta1 beta2 var1 var2 cov12 : loc) (df : Z) (x : inputs) :
  bound w beta1 beta2 var1 var2 cov12 x -> same_shape x ->
  exists l w1 l' w2 out,
    compute_combined_pvalue t_cdf beta1 beta2 var1 var2 cov12 df w = (Ok l, w1) /\
    compute_combined_pvalue t_cdf beta2 beta1 var2 var1 cov12 df w = (Ok l', w2) /\
    heap w1 !! l = Some out /\ heap w2 !! l' = Some out.
Proof.
  intros Hb Hs.
  assert (Hb' : bound w beta2 beta1 var2 var1 cov12 (exchange x)).
  { destruct Hb as (H1 & H2 & H3 & H4 & H5). now repeat split. }
  assert (Hs' : same_shape (exchange x)).
  { destruct Hs as (H2 & H3 & H4 & H5). unfold same_shape, exchange.
    cbn [in_beta1 in_beta2 in_var1 in_var2 in_cov12]. repeat split; congruence. }
  destruct (compute_combined_pvalue_ok t_cdf w _ _ _ _ _ df x Hb Hs)
    as (l & w1 & Hrun & _ & _ & Hl & _).
  destruct (compute_combined_pvalue_ok t_cdf w _ _ _ _ _ df (exchange x) Hb' Hs')
    as (l' & w2 & Hrun' & _ & _ & Hl' & _).
  exists l, w1, l', w2, (NDArray (shape (in_beta1 x)) (array_p t_cdf df x)).
  repeat split; try assumption.
  rewrite Hl'. f_equal. f_equal.
  - destruct Hs as (H2 & _). exact H2.
  - apply list_eq. intros i. rewrite !array_p_lookup, voxel_at_exchange.
    destruct (voxel_at x i) as [v|]; [|reflexivity]. simpl. f_equal.
    apply voxel_p_exchange.
Qed.


End CoreProperties.

(** * Further properties of [main] and the file helpers *)

Section MainProperties.

Variable t_cdf : float -> Z -> float.










(** X9.  Two loads, of different files or of the same one, return two
    different array objects, each holding the data of its file; the first
    is intact after the second load and the files are unchanged.  So the
    arrays [main] hands to the core never alias one another. *)
Theorem loads_never_alias (w : world) (p q : string) (ip iq : nifti_image) :
  files w !! p = Some ip -> files w !! q = Some iq ->
  exists l1 w1 l2 w2,
    load_nifti p w = (Ok l1, w1) /\ load_nifti q w1 = (Ok l2, w2) /\
    l1 <> l2 /\
    heap w2 !! l1 = Some (img_data ip) /\ heap w2 !! l2 = Some (img_data iq) /\
    files w2 = files w.
Proof.
  intros Hp Hq.
  exists (next w), (alloc w (img_data ip)), (next (alloc w (img_data ip))),
    (alloc (alloc w (img_data ip)) (img_data iq)).
  split; [now apply load_nifti_ok|]. split; [now apply load_nifti_ok|].
  split; [|split; [|split; [|reflexivity]]].
  - intros Heq.
    pose proof (next_fresh (alloc w (img_data ip))) as Hfresh.
    rewrite <- Heq, alloc_lookup_new in Hfresh. discriminate.
  - apply alloc_lookup_old, alloc_lookup_new.
  - apply alloc_lookup_new.
Qed.

End MainProperties.

(** * The p-value against the size of the t statistic *)

Section Monotone.
Local Open Scope float_scope.

Variable t_cdf : float -> Z -> float.




End Monotone.

Section ReferenceContract.
Local Open Scope float_scope.




End ReferenceContract.

(** * The further properties on concrete inputs *)

Section MoreInstances.
Local Open Scope float_scope.

Lemma new_array_witness :
  exists l w' out,
    compute_combined_pvalue t_cdf_two 1%positive 2%positive 3%positive 4%positive
      5%positive 50 example_world = (Ok l, w') /\
    heap example_world !! l = None /\ heap w' !! l = Some out /\
    shape out = shape (in_beta1 example_inputs) /\ length (data out) = 3%nat.
Proof.
  apply (returns_new_array_of_input_shape t_cdf_two example_world 1%positive
           2%positive 3%positive 4%positive 5%positive 50 example_inputs 3).
  - apply world_of_bound.
  - apply example_same_shape.
  - repeat constructor.
Defined.

Lemma finite_elements_witness :
  exists l w' out,
    compute_combined_pvalue t_cdf_wild 1%positive 2%positive 3%positive 4%positive
      5%positive 50 example_world = (Ok l, w') /\
    heap w' !! l = Some out /\
    forall i p, data out !! i = Some p -> is_finite p = true.
Proof.
  apply (output_elements_finite t_cdf_wild example_world 1%positive 2%positive
           3%positive 4%positive 5%positive 50 example_inputs).
  - apply world_of_bound.
  - apply example_same_shape.
Defined.

Lemma nan_input_witness :
  exists l w',
    compute_combined_pvalue t_cdf_ref 1%positive 2%positive 3%positive 4%positive
      5%positive 50 (world_of irregular_inputs) = (Ok l, w') /\
    element w' l 0 = Some 0.
Proof.
  apply (nan_input_output_zero t_cdf_ref (world_of irregular_inputs) 1%positive
           2%positive 3%positive 4%positive 5%positive 50 irregular_inputs 0
           (Voxel nan 0.25 0.25 0.5 0.125)).
  - apply t_cdf_ref_nan.
  - apply world_of_bound.
  - repeat split.
  - reflexivity.
  - left. reflexivity.
Defined.

Lemma exchange_witness :
  exists l w1 l' w2 out,
    compute_combined_pvalue t_cdf_two 1%positive 2%positive 3%positive 4%positive
      5%positive 50 example_world = (Ok l, w1) /\
    compute_combined_pvalue t_cdf_two 2%positive 1%positive 4%positive 3%positive
      5%positive 50 example_world = (Ok l', w2) /\
    heap w1 !! l = Some out /\ heap w2 !! l' = Some out.
Proof.
  apply (exchange_symmetry t_cdf_two example_world 1%positive 2%positive 3%positive
           4%positive 5%positive 50 example_inputs).
  - apply world_of_bound.
  - apply example_same_shape.
Defined.




Lemma same_file_twice_witness :
  exists l1 w1 l2 w2,
    load_nifti "beta4.nii" (example_files (in_cov12 example_inputs)) = (Ok l1, w1) /\
    load_nifti "beta4.nii" w1 = (Ok l2, w2) /\
    l1 <> l2 /\
    heap w2 !! l1 = Some (in_beta1 example_inputs) /\
    heap w2 !! l2 = Some (in_beta1 example_inputs) /\
    files w2 = files (example_files (in_cov12 example_inputs)).
Proof.
  apply (loads_never_alias (example_files (in_cov12 example_inputs))
           "beta4.nii" "beta4.nii"
           (image_of (in_beta1 example_inputs)) (image_of (in_beta1 example_inputs)));
    reflexivity.
Defined.


End MoreInstances.
